(** * react-frames: the carousel core of the [Frames] component

    A shallow embedding of the navigation logic of the [Frames] React
    component: the clone padding of loop mode, the public/internal index
    compensation, [goToFrame] with its completion callback, the timers of
    animated moves and the Hammer gesture handler [onEvents].

    Conventions of the embedding:
    - frame indices and counts are integers ([Z]);
    - sizes, deltas and container offsets are JavaScript numbers, that is
      IEEE 754 doubles ([float]), with their rounding product and sum and
      their comparisons (false on [NaN]);
    - [props.children] may hold empty nodes, which [Children.count] counts
      and [Children.toArray] drops;
    - the component instance ([this] / [that]) is an explicit record threaded
      through every method;
    - the calls that leave the component (the [transform] written on the
      container, [onFrameUpdate], [hammer.stop]) are appended to a log;
    - [setTimeout] callbacks are kept, defunctionalised, in a list of pending
      timers, and a [timeout] step runs one of them;
    - [goToFrame] calls itself from its completion callback, so it is defined
      by recursion on a fuel argument; [goToFrame_terminates] shows that two
      units are enough whenever the frames are the rendered ones. *)

From Stdlib Require Import String ZArith Bool List Lia.
From Stdlib Require Import PrimFloat FloatOps SpecFloat.

(* Decimal literals stand for the nearest double, as they do in JavaScript. *)
Set Warnings "-inexact-float".
Import ListNotations.
Open Scope Z_scope.

(** ** Numbers *)

(** The double nearest to an integer: how an index enters the arithmetic. *)
Definition numberOfZ (z : Z) : float :=
  SF2Prim (binary_normalize prec emax z 0 false).

(** JavaScript [x > y], [x <= y] and [x >= y] on numbers. *)
Definition gtJS (x y : float) : bool := PrimFloat.ltb y x.
Definition leJS (x y : float) : bool := PrimFloat.leb x y.
Definition geJS (x y : float) : bool := PrimFloat.leb y x.

(** ** Props and component state *)

Definition ReactNode := string.

(** [IProps], with the class names left out.  [onFrameUpdate] records whether
    the host passed a callback; its calls are logged as [FrameUpdate].
    [children] lists the child nodes, [None] being an empty node ([null],
    [undefined] or a boolean). *)
Record IProps := {
  draggable : bool;
  swipeable : bool;
  isVertical : bool;
  frameBoundary : float;
  startFrame : Z;
  loop : bool;
  clonesCount : Z;
  onFrameUpdate : bool;
  children : list (option ReactNode)
}.

(** [Frames.defaultProps] applied to a list of children. *)
Definition defaultProps (kids : list (option ReactNode)) : IProps :=
  {| draggable := false; swipeable := false; isVertical := false;
     frameBoundary := 0.25%float; startFrame := 0; loop := false;
     clonesCount := 2; onFrameUpdate := false; children := kids |}.

(** What the component does to its surroundings. *)
Inductive Effect :=
| Translate (pixels : float)     (* container.style.transform = translate(pixels px) *)
| FrameUpdate (index : Z)    (* onFrameUpdate(index) *)
| HammerStop.                (* hammer.stop(true) *)

(** The variables captured by the completion callback that [goToFrame] hands
    to [moveContainerBy]: [index], [framesCount], [loop], [onFrameUpdate]. *)
Record Transition := {
  tIndex : Z;
  tFramesCount : Z;
  tLoop : bool;
  tOnFrameUpdate : bool
}.

(** The instance.  [frames] holds the child nodes collected by [init]
    ([None] is an [undefined] array slot); [moving] is the presence of
    [transitionClass] on the parent; [timers] are the pending [setTimeout]
    callbacks in registration order, each carrying its optional [done]. *)
Record Frames := {
  props : IProps;
  SWIPE_PREV : string;
  SWIPE_NEXT : string;
  PAN_PREV : string;
  PAN_NEXT : string;
  frames : list (option ReactNode);
  frameSize : float;
  activeIndex : Z;
  transform : option float;
  moving : bool;
  timers : list (option Transition);
  effects : list Effect
}.

Definition PAN_START : string := "panstart"%string.
Definition PAN_END : string := "panend"%string.
Definition PAN_CANCEL : string := "pancancel"%string.

Definition set_frames (l : list (option ReactNode)) (that : Frames) : Frames :=
  {| props := props that; SWIPE_PREV := SWIPE_PREV that;
     SWIPE_NEXT := SWIPE_NEXT that; PAN_PREV := PAN_PREV that;
     PAN_NEXT := PAN_NEXT that; frames := l; frameSize := frameSize that;
     activeIndex := activeIndex that; transform := transform that;
     moving := moving that; timers := timers that; effects := effects that |}.

Definition set_frameSize (q : float) (that : Frames) : Frames :=
  {| props := props that; SWIPE_PREV := SWIPE_PREV that;
     SWIPE_NEXT := SWIPE_NEXT that; PAN_PREV := PAN_PREV that;
     PAN_NEXT := PAN_NEXT that; frames := frames that; frameSize := q;
     activeIndex := activeIndex that; transform := transform that;
     moving := moving that; timers := timers that; effects := effects that |}.

Definition set_activeIndex (i : Z) (that : Frames) : Frames :=
  {| props := props that; SWIPE_PREV := SWIPE_PREV that;
     SWIPE_NEXT := SWIPE_NEXT that; PAN_PREV := PAN_PREV that;
     PAN_NEXT := PAN_NEXT that; frames := frames that;
     frameSize := frameSize that; activeIndex := i;
     transform := transform that; moving := moving that;
     timers := timers that; effects := effects that |}.

Definition set_transform (q : float) (that : Frames) : Frames :=
  {| props := props that; SWIPE_PREV := SWIPE_PREV that;
     SWIPE_NEXT := SWIPE_NEXT that; PAN_PREV := PAN_PREV that;
     PAN_NEXT := PAN_NEXT that; frames := frames that;
     frameSize := frameSize that; activeIndex := activeIndex that;
     transform := Some q; moving := moving that; timers := timers that;
     effects := effects that |}.

Definition set_moving (b : bool) (that : Frames) : Frames :=
  {| props := props that; SWIPE_PREV := SWIPE_PREV that;
     SWIPE_NEXT := SWIPE_NEXT that; PAN_PREV := PAN_PREV that;
     PAN_NEXT := PAN_NEXT that; frames := frames that;
     frameSize := frameSize that; activeIndex := activeIndex that;
     transform := transform that; moving := b; timers := timers that;
     effects := effects that |}.

Definition set_timers (l : list (option Transition)) (that : Frames) : Frames :=
  {| props := props that; SWIPE_PREV := SWIPE_PREV that;
     SWIPE_NEXT := SWIPE_NEXT that; PAN_PREV := PAN_PREV that;
     PAN_NEXT := PAN_NEXT that; frames := frames that;
     frameSize := frameSize that; activeIndex := activeIndex that;
     transform := transform that; moving := moving that; timers := l;
     effects := effects that |}.

Definition emit (e : Effect) (that : Frames) : Frames :=
  {| props := props that; SWIPE_PREV := SWIPE_PREV that;
     SWIPE_NEXT := SWIPE_NEXT that; PAN_PREV := PAN_PREV that;
     PAN_NEXT := PAN_NEXT that; frames := frames that;
     frameSize := frameSize that; activeIndex := activeIndex that;
     transform := transform that; moving := moving that;
     timers := timers that; effects := effects that ++ [e] |}.

(** [frames.length] *)
Definition framesCount (that : Frames) : Z := Z.of_nat (length (frames that)).

(** ** Construction *)

(** The constructor: the axis-dependent event names and the start index.
    [frames] is unset until [init] runs; no method reads it before that,
    since the handlers are attached in [componentDidMount], which calls
    [init] at once. *)
Definition constructor (p : IProps) : Frames :=
  {| props := p;
     SWIPE_PREV := (if isVertical p then "swipeup" else "swipeleft")%string;
     SWIPE_NEXT := (if isVertical p then "swipedown" else "swiperight")%string;
     PAN_PREV := (if isVertical p then "panup" else "panleft")%string;
     PAN_NEXT := (if isVertical p then "pandown" else "panright")%string;
     frames := [];
     frameSize := 0%float;
     activeIndex := startFrame p;
     transform := None;
     moving := false;
     timers := [];
     effects := [] |}.

(** ** Loop padding *)

(** [Children.count(children)]: every node, the empty ones too. *)
Definition count (kids : list (option ReactNode)) : Z := Z.of_nat (length kids).

(** [Children.toArray(children)]: the nodes that are not empty. *)
Fixpoint toArray (kids : list (option ReactNode)) : list ReactNode :=
  match kids with
  | [] => []
  | Some child :: kids' => child :: toArray kids'
  | None :: kids' => toArray kids'
  end.

(** [getClonesCount]: [Math.min(props.clonesCount, Children.count(props.children))] *)
Definition getClonesCount (p : IProps) : Z :=
  Z.min (clonesCount p) (count (children p)).

(** [childrenArr[i]], [undefined] outside the array. *)
Definition item (childrenArr : list ReactNode) (i : Z) : option ReactNode :=
  if i <? 0 then None else nth_error childrenArr (Z.to_nat i).

(** The loop [for (i = childrenCount - 1; i >= childrenCount - clonesCount; i--)
    withClones.unshift(childrenArr[i])], run for [n] iterations from [i]. *)
Fixpoint preClones (n : nat) (childrenArr : list ReactNode) (i : Z)
    (withClones : list (option ReactNode)) : list (option ReactNode) :=
  match n with
  | O => withClones
  | S n' => preClones n' childrenArr (i - 1) (item childrenArr i :: withClones)
  end.

(** The loop [for (i = 0; i < clonesCount; i++) withClones.push(childrenArr[i])]. *)
Fixpoint postClones (n : nat) (childrenArr : list ReactNode) (i : Z)
    (withClones : list (option ReactNode)) : list (option ReactNode) :=
  match n with
  | O => withClones
  | S n' => postClones n' childrenArr (i + 1) (withClones ++ [item childrenArr i])
  end.

(** [getChildren]: [None] is the [null] returned for no children; the wrapping
    [div]s are one per element and are not represented. *)
Definition getChildren (kids : list (option ReactNode)) (clonesCount : Z)
    : option (list (option ReactNode)) :=
  let childrenArr := toArray kids in
  let childrenCount := Z.of_nat (length childrenArr) in
  let withClones := map Some childrenArr in
  if childrenCount =? 0 then None
  else if clonesCount =? 0 then Some withClones
  else
    let withClones :=
      preClones (Z.to_nat clonesCount) childrenArr (childrenCount - 1) withClones in
    Some (postClones (Z.to_nat clonesCount) childrenArr 0 withClones).

(** The child nodes of the container after [render]. *)
Definition render (p : IProps) : list (option ReactNode) :=
  match getChildren (children p) (if loop p then getClonesCount p else 0) with
  | Some l => l
  | None => []
  end.

(** The two inline index compensations: the argument of [goToFrame] in
    [goTo], and the argument of [onFrameUpdate] in the completion callback. *)
Definition toInternal (loop : bool) (clonesCount index : Z) : Z :=
  if loop then index + clonesCount else index.

Definition toPublic (loop : bool) (clonesCount index : Z) : Z :=
  if loop then index - clonesCount else index.

(** ** Navigation *)

Section Completion.

(** The recursive occurrence of [goToFrame] inside its own callback. *)
Variable goToFrame : Z -> bool -> Frames -> option Frames.

(** The arrow function passed as [done] by [goToFrame]. *)
Definition done (t : Transition) (that : Frames) : option Frames :=
  let index := tIndex t in
  let clonesCount := getClonesCount (props that) in
  let firstRealIndex := clonesCount in
  let lastRealIndex := (tFramesCount t - 1) - clonesCount in
  if tLoop t && ((index <? firstRealIndex) || (index >? lastRealIndex)) then
    let isForward := activeIndex that <=? index in
    goToFrame (if isForward then firstRealIndex else lastRealIndex) false that
  else
    let that := set_activeIndex index that in
    Some (if tOnFrameUpdate t
          then emit (FrameUpdate (toPublic (tLoop t) clonesCount index)) that
          else that).

(** [done && done()] *)
Definition callDone (cb : option Transition) (that : Frames) : option Frames :=
  match cb with
  | Some t => done t that
  | None => Some that
  end.

(** [moveContainerBy(pixels, animate, done)] *)
Definition moveContainerBy (pixels : float) (animate : bool)
    (cb : option Transition) (that : Frames) : option Frames :=
  let that := emit (Translate pixels) (set_transform pixels that) in
  if animate then
    Some (set_timers (timers that ++ [cb]) (set_moving true that))
  else
    callDone cb that.

End Completion.

(** [goToFrame(index, animate)]; [None] only when the fuel runs out. *)
Fixpoint goToFrame (fuel : nat) (index : Z) (animate : bool) (that : Frames)
    : option Frames :=
  match fuel with
  | O => None
  | S fuel' =>
    let framesCount := framesCount that in
    if (framesCount =? 0) || (index <? 0) || (index >? framesCount) then Some that
    else
      moveContainerBy (goToFrame fuel')
        (- numberOfZ index * frameSize that)%float animate
        (Some {| tIndex := index; tFramesCount := framesCount;
                 tLoop := loop (props that);
                 tOnFrameUpdate := onFrameUpdate (props that) |})
        that
  end.

(** The body of the [setTimeout] callback of [moveContainerBy], for the
    [k]-th pending timer: drop the transition class and call [done]. *)
Definition timeout (fuel : nat) (k : nat) (that : Frames) : option Frames :=
  match nth_error (timers that) k with
  | None => Some that
  | Some cb =>
    let that := set_timers (firstn k (timers that) ++ skipn (S k) (timers that)) that in
    callDone (goToFrame fuel) cb (set_moving false that)
  end.

(** [getNextIndex(forward)] *)
Definition getNextIndex (forward : bool) (that : Frames) : Z :=
  let current := activeIndex that in
  if forward then Z.min (current + 1) (framesCount that - 1)
  else Z.max (current - 1) 0.

Definition next (fuel : nat) (that : Frames) : option Frames :=
  goToFrame fuel (getNextIndex true that) true that.

Definition prev (fuel : nat) (that : Frames) : option Frames :=
  goToFrame fuel (getNextIndex false that) true that.

Definition goTo (fuel : nat) (index : Z) (that : Frames) : option Frames :=
  goToFrame fuel
    (toInternal (loop (props that)) (getClonesCount (props that)) index)
    true that.

(** [setSizes] spreads the frames over the container and returns the
    measured size of the parent, which is an input here. *)
Definition setSizes (measured : float) (that : Frames) : float := measured.

(** [init]: collect the rendered children, store the frame size, and settle
    on the active frame without animation. *)
Definition init (fuel : nat) (measured : float) (that : Frames)
    : option Frames :=
  let that := set_frames (render (props that)) that in
  let that := set_frameSize (setSizes measured that) that in
  goToFrame fuel (activeIndex that) false that.

Definition recalculate := init.
Definition componentDidMount := init.
Definition onWindowChanges := init.

(** ** Gestures *)

(** The fields of a [HammerInput] that the handler reads: [e.type],
    [e.deltaX], [e.deltaY] and [e.srcEvent.type]. *)
Record HammerInput := {
  type : string;
  deltaX : float;
  deltaY : float;
  srcEventType : string
}.

(** [isOutOfBounds(position)] *)
Definition isOutOfBounds (position : float) (that : Frames) : bool :=
  let last := framesCount that - 1 in
  ((activeIndex that =? 0) && geJS position 0)
  || ((activeIndex that =? last)
      && leJS position (- frameSize that * numberOfZ last)%float).

(** Sequencing of calls that may run out of fuel. *)
Definition andThen (r : option Frames) (k : Frames -> option Frames)
    : option Frames :=
  match r with
  | Some that => k that
  | None => None
  end.

(** [delta > 0 ? that.prev() : that.next()] *)
Definition prevOrNext (fuel : nat) (delta : float) (that : Frames)
    : option Frames :=
  if gtJS delta 0 then prev fuel that else next fuel that.

(** [hammer.stop(true)] *)
Definition hammerStop (that : Frames) : option Frames :=
  Some (emit HammerStop that).

(** [onEvents(e)] *)
Definition onEvents (fuel : nat) (e : HammerInput) (that : Frames)
    : option Frames :=
  let delta := if isVertical (props that) then deltaY e else deltaX e in
  if String.eqb (srcEventType e) "pointercancel" then Some that
  else if String.eqb (type e) (PAN_PREV that)
          || String.eqb (type e) (PAN_NEXT that) then
    let framePos := (- numberOfZ (activeIndex that) * frameSize that)%float in
    if gtJS (abs delta) (frameSize that) then
      andThen (prevOrNext fuel delta that) hammerStop
    else
      let delta :=
        if isOutOfBounds (framePos + delta)%float that
           && negb (loop (props that))
        then (delta * 0.15)%float else delta in
      moveContainerBy (goToFrame fuel) (framePos + delta)%float false None that
  else if String.eqb (type e) (SWIPE_PREV that)
          || String.eqb (type e) (SWIPE_NEXT that) then
    andThen (prevOrNext fuel delta that) hammerStop
  else if String.eqb (type e) PAN_END || String.eqb (type e) PAN_CANCEL then
    if gtJS (abs delta) (frameSize that * frameBoundary (props that))%float then
      prevOrNext fuel delta that
    else
      goToFrame fuel (activeIndex that) true that
  else Some that.

(** ** The event loop *)

(** Everything that can happen to a mounted component: a call of its public
    API, a (re)initialisation with the measured parent size, a gesture event,
    or the expiry of the [k]-th pending timer ([k = 0] is the oldest one,
    which is the first to expire among timers of equal delay). *)
Inductive Event :=
| CallNext
| CallPrev
| CallGoTo (index : Z)
| Init (measured : float)
| Gesture (e : HammerInput)
| Timeout (k : nat).

Definition step (fuel : nat) (ev : Event) (that : Frames) : option Frames :=
  match ev with
  | CallNext => next fuel that
  | CallPrev => prev fuel that
  | CallGoTo index => goTo fuel index that
  | Init measured => init fuel measured that
  | Gesture e => onEvents fuel e that
  | Timeout k => timeout fuel k that
  end.

Fixpoint run (fuel : nat) (evs : list Event) (that : Frames) : option Frames :=
  match evs with
  | [] => Some that
  | ev :: evs' => andThen (step fuel ev that) (run fuel evs')
  end.

(** The [onFrameUpdate] calls of a log, in order. *)
Fixpoint frameUpdates (l : list Effect) : list Z :=
  match l with
  | [] => []
  | FrameUpdate i :: l' => i :: frameUpdates l'
  | _ :: l' => frameUpdates l'
  end.

(** The component right after mounting with props [p] in a parent of the
    given size. *)
Definition mounted (fuel : nat) (p : IProps) (measured : float)
    : option Frames :=
  componentDidMount fuel measured (constructor p).

(** The frames are the ones [render] produces for the current props, which
    holds after every [init]. *)
Definition rendered (that : Frames) : Prop := frames that = render (props that).

(** What no method but [init] touches, and the log only grows. *)
Definition stable (s s' : Frames) : Prop :=
  props s' = props s /\ frames s' = frames s /\ frameSize s' = frameSize s /\
  PAN_PREV s' = PAN_PREV s /\ PAN_NEXT s' = PAN_NEXT s /\
  SWIPE_PREV s' = SWIPE_PREV s /\ SWIPE_NEXT s' = SWIPE_NEXT s /\
  exists l, effects s' = effects s ++ l.

(** ** Vocabulary of the statements *)

(** [goToFrame] takes [index]: there are frames and [0 <= index <= frames.length]. *)
Definition accepts (s : Frames) (index : Z) : Prop :=
  framesCount s <> 0 /\ 0 <= index <= framesCount s.

(** The closure [goToFrame] builds for [index]. *)
Definition closure (s : Frames) (index : Z) : Transition :=
  {| tIndex := index; tFramesCount := framesCount s;
     tLoop := loop (props s); tOnFrameUpdate := onFrameUpdate (props s) |}.

(** The container offset of a frame. *)
Definition offset (s : Frames) (index : Z) : float :=
  (- numberOfZ index * frameSize s)%float.

(** The condition under which the completion callback takes the seam jump. *)
Definition landsOnClone (t : Transition) (s : Frames) : bool :=
  tLoop t
  && ((tIndex t <? getClonesCount (props s))
      || (tIndex t >? (tFramesCount t - 1) - getClonesCount (props s))).

(** An animated [goToFrame] followed by the expiry of the timer it set. *)
Definition settleAt (fuel : nat) (index : Z) (s : Frames) : option Frames :=
  andThen (goToFrame fuel index true s) (timeout fuel (length (timers s))).

(** A move in either mode, run to its completion. *)
Definition settle (fuel : nat) (index : Z) (animate : bool) (s : Frames)
    : option Frames :=
  if animate then settleAt fuel index s else goToFrame fuel index false s.

(** Three frames in loop mode with the default two clones and a callback. *)
Definition threeFramesLoop : IProps :=
  {| draggable := true; swipeable := true; isVertical := false;
     frameBoundary := 0.25%float; startFrame := 0; loop := true;
     clonesCount := 2; onFrameUpdate := true;
     children := [Some "A"; Some "B"; Some "C"]%string |}.

(** The carousel of [threeFramesLoop] mounted in a parent 300 wide. *)
Definition mountedThreeFramesLoop : Frames :=
  Eval cbv in
    match mounted 2 threeFramesLoop 300 with
    | Some s => s
    | None => constructor threeFramesLoop
    end.

(** The calls a host makes to step through the frames, and timer expiries. *)
Definition stepping (toNext toPrev : bool) (ev : Event) : bool :=
  match ev with
  | CallNext => toNext
  | CallPrev => toPrev
  | Timeout _ => true
  | _ => false
  end.

(** A pending callback captured outside loop mode and aimed at [lo..hi]. *)
Definition aimsWithin (lo hi : Z) (cb : option Transition) : Prop :=
  match cb with
  | Some t => tLoop t = false /\ lo <= tIndex t <= hi
  | None => True
  end.

(** With [n] frames and looping off, the active index and every pending
    target lie in [lo..hi]. *)
Definition within (n lo hi : Z) (s : Frames) : Prop :=
  framesCount s = n /\ loop (props s) = false /\
  lo <= activeIndex s <= hi /\
  Forall (aimsWithin lo hi) (timers s).

(** Three frames without looping, starting on the frame [start]. *)
Definition threeFrames (start : Z) : IProps :=
  {| draggable := true; swipeable := true; isVertical := false;
     frameBoundary := 0.25%float; startFrame := start; loop := false;
     clonesCount := 2; onFrameUpdate := true;
     children := [Some "A"; Some "B"; Some "C"]%string |}.

Definition mountedThreeFrames : Frames :=
  Eval cbv in
    match mounted 2 (threeFrames 0) 300 with
    | Some s => s
    | None => constructor (threeFrames 0)
    end.

Definition mountedOnLastFrame : Frames :=
  Eval cbv in
    match mounted 2 (threeFrames 2) 300 with
    | Some s => s
    | None => constructor (threeFrames 2)
    end.

(** The internal index [goTo] aims at. *)
Definition internal (s : Frames) (index : Z) : Z :=
  toInternal (loop (props s)) (getClonesCount (props s)) index.

(** An index that [goToFrame] takes and whose completion finalises. *)
Definition realTarget (s : Frames) (index : Z) : Prop :=
  accepts s index /\
  (loop (props s) = true ->
   getClonesCount (props s) <= index
   <= (framesCount s - 1) - getClonesCount (props s)).

(** Three looping frames asked to start on the second one. *)
Definition loopFromSecond : IProps :=
  {| draggable := true; swipeable := true; isVertical := false;
     frameBoundary := 0.25%float; startFrame := 1; loop := true;
     clonesCount := 2; onFrameUpdate := true;
     children := [Some "A"; Some "B"; Some "C"]%string |}.

(** The signed distance of the gesture along the axis of the carousel. *)
Definition deltaOf (e : HammerInput) (s : Frames) : float :=
  if isVertical (props s) then deltaY e else deltaX e.

(** The event names are the ones the constructor stores for some axis. *)
Definition constructed (s : Frames) : Prop :=
  exists p,
    SWIPE_PREV s = SWIPE_PREV (constructor p) /\
    SWIPE_NEXT s = SWIPE_NEXT (constructor p) /\
    PAN_PREV s = PAN_PREV (constructor p) /\
    PAN_NEXT s = PAN_NEXT (constructor p).

(** The handler is past its [pointercancel] guard. *)
Definition delivered (e : HammerInput) : Prop :=
  srcEventType e <> "pointercancel"%string.

Definition isPanMove (e : HammerInput) (s : Frames) : Prop :=
  type e = PAN_PREV s \/ type e = PAN_NEXT s.

Definition isPanEnd (e : HammerInput) : Prop :=
  type e = PAN_END \/ type e = PAN_CANCEL.

(** A pan cancel that Hammer derives from a [pointercancel], 76 to the left. *)
Definition cancelledPanEnd : HammerInput :=
  {| type := "pancancel"; deltaX := -76; deltaY := 0;
     srcEventType := "pointercancel" |}.

(** A pan end 76 to the left, delivered by a [pointerup]. *)
Definition panEndLeft76 : HammerInput :=
  {| type := "panend"; deltaX := -76; deltaY := 0;
     srcEventType := "pointerup" |}.

(** A pan move 350 to the left that Hammer emits on a [pointercancel]. *)
Definition cancelledPanMove : HammerInput :=
  {| type := "panleft"; deltaX := -350; deltaY := 0;
     srcEventType := "pointercancel" |}.

(** A pan move 350 to the right, delivered by a [pointermove]. *)
Definition panRight350 : HammerInput :=
  {| type := "panright"; deltaX := 350; deltaY := 0;
     srcEventType := "pointermove" |}.

(** The position lies past an end of the track, as [isOutOfBounds] tests it. *)
Definition outOfBounds (position : float) (s : Frames) : Prop :=
  let last := framesCount s - 1 in
  (activeIndex s = 0 /\ geJS position 0 = true) \/
  (activeIndex s = last
   /\ leJS position (- frameSize s * numberOfZ last)%float = true).

(** A pan move 50 to the right that Hammer emits on a [pointercancel]. *)
Definition cancelledDrag : HammerInput :=
  {| type := "panright"; deltaX := 50; deltaY := 0;
     srcEventType := "pointercancel" |}.

(** A pan move 50 to the right, delivered by a [pointermove]. *)
Definition panRight50 : HammerInput :=
  {| type := "panright"; deltaX := 50; deltaY := 0;
     srcEventType := "pointermove" |}.

(** ** Vocabulary of the further properties *)

(** The number of children that are rendered: [Children.toArray(children).length]. *)
Definition realCount (s : Frames) : Z :=
  Z.of_nat (length (toArray (children (props s)))).

(** The index in [childrenArr] from which [getChildren] fills slot [j] of a
    padded array of [n] children and [c] clones on each side. *)
Definition slotChild (n c j : Z) : Z :=
  if j <? c then n - c + j
  else if j <? c + n then j - c
  else j - c - n.

(** The clones count [render] hands to [getChildren]. *)
Definition padding (s : Frames) : Z :=
  if loop (props s) then getClonesCount (props s) else 0.

(** [next()] or [prev()] followed by the expiry of the timer it set. *)
Definition stepAndSettle (fuel : nat) (forward : bool) (s : Frames)
    : option Frames :=
  andThen (if forward then next fuel s else prev fuel s)
    (timeout fuel (length (timers s))).

(** [goTo(index)] followed by the expiry of the timer it set. *)
Definition goToAndSettle (fuel : nat) (index : Z) (s : Frames) : option Frames :=
  andThen (goTo fuel index s) (timeout fuel (length (timers s))).

(** The index an accepted move towards [index] settles on. *)
Definition settlesOn (s : Frames) (index : Z) : Z :=
  if landsOnClone (closure s index) s
  then (if activeIndex s <=? index then getClonesCount (props s)
        else (framesCount s - 1) - getClonesCount (props s))
  else index.

(** A pending callback is the closure [goToFrame] built for an index it
    accepted. *)
Definition pendingOk (s : Frames) (cb : option Transition) : Prop :=
  match cb with
  | Some t => t = closure s (tIndex t) /\ accepts s (tIndex t)
  | None => True
  end.

(** [i] is the public index of an accepted index that is off the clones. *)
Definition reportable (s : Frames) (i : Z) : Prop :=
  exists index,
    realTarget s index /\
    i = toPublic (loop (props s)) (getClonesCount (props s)) index.

(** The state of a mounted component between two events: the frames are the
    rendered ones, the active index is accepted and off the clones, the
    pending timers are closures of accepted moves, and every index reported
    so far was the public index of such a frame. *)
Definition consistent (s : Frames) : Prop :=
  rendered s /\
  realTarget s (activeIndex s) /\
  Forall (pendingOk s) (timers s) /\
  Forall (reportable s) (frameUpdates (effects s)).

Definition isSwipe (e : HammerInput) (s : Frames) : Prop :=
  type e = SWIPE_PREV s \/ type e = SWIPE_NEXT s.

(** ** The scrolling variant ([index_scroll_wip.tsx])

    The work-in-progress component that scrolls its parent instead of
    translating a container.  Child nodes are identified by a number; the
    completion callbacks handed to the scrolling helper are kept, like the
    timers above, in a list of pending calls, each with the index it
    captured. *)

Module ScrollWip.

Record Frames := {
  total : Z;                    (* React.Children.count(props.children) *)
  childrenRefs : list nat;      (* parentRef.childNodes *)
  activeIndex : Z;
  activeFrame : option nat;
  isBusy : bool;
  scrolling : list (Z * nat);   (* pending callbacks: [next], [nextChild] *)
  scrolledTo : list Z           (* the children scrolled to, in order *)
}.

(** [childrenRefs[next]]; [None] is [undefined], also for the [NaN] index. *)
Definition child (that : Frames) (next : option Z) : option nat :=
  match next with
  | Some i => if i <? 0 then None else nth_error (childrenRefs that) (Z.to_nat i)
  | None => None
  end.

(** [getNextIndex(fwd)]: JavaScript [%] truncates, and is [NaN] (here [None])
    for a zero divisor. *)
Definition getNextIndex (fwd : bool) (that : Frames) : option Z :=
  let total := total that in
  let current := activeIndex that in
  if total =? 0 then None
  else Some (Z.rem (if fwd then current + 1 else current + total - 1) total).

(** [scrollTo(next, instant)]: without a child at [next] it only warns. *)
Definition scrollTo (next : option Z) (that : Frames) : Frames :=
  match next, child that next with
  | Some i, Some nextChild =>
    {| total := total that; childrenRefs := childrenRefs that;
       activeIndex := activeIndex that; activeFrame := activeFrame that;
       isBusy := true;
       scrolling := scrolling that ++ [(i, nextChild)];
       scrolledTo := scrolledTo that ++ [i] |}
  | _, _ => that
  end.

(** The callback [scrollTo] passes to the scrolling helper, for the oldest
    pending call. *)
Definition scrolled (that : Frames) : Frames :=
  match scrolling that with
  | [] => that
  | (next, nextChild) :: rest =>
    {| total := total that; childrenRefs := childrenRefs that;
       activeIndex := next; activeFrame := Some nextChild;
       isBusy := false;
       scrolling := rest;
       scrolledTo := scrolledTo that |}
  end.

Definition next (that : Frames) : Frames := scrollTo (getNextIndex true that) that.
Definition prev (that : Frames) : Frames := scrollTo (getNextIndex false that) that.

(** [onResize] *)
Definition onResize (that : Frames) : Frames :=
  scrollTo (Some (activeIndex that)) that.

(** [Array.from(childrenRefs).indexOf(element)] *)
Fixpoint indexOf (l : list nat) (element : nat) (from : Z) : Z :=
  match l with
  | [] => -1
  | x :: l' => if Nat.eqb x element then from else indexOf l' element (from + 1)
  end.

(** [onIntersect(v, stop, subject)] with [v.visible] and [subject.element]. *)
Definition onIntersect (visible : bool) (element : nat) (that : Frames) : Frames :=
  if negb visible || isBusy that then that
  else
    let actualIndex := indexOf (childrenRefs that) element 0 in
    if negb (actualIndex =? activeIndex that) then
      {| total := total that; childrenRefs := childrenRefs that;
         activeIndex := actualIndex; activeFrame := activeFrame that;
         isBusy := isBusy that; scrolling := scrolling that;
         scrolledTo := scrolledTo that |}
    else that.

(** [next()] or [prev()] and the completion of the scroll it starts. *)
Definition stepAndSettle (fwd : bool) (that : Frames) : Frames :=
  scrolled (if fwd then next that else prev that).

(** [k] calls of [next()], each run to completion. *)
Fixpoint nextTimes (k : nat) (that : Frames) : Frames :=
  match k with
  | O => that
  | S k' => stepAndSettle true (nextTimes k' that)
  end.

(** A mounted scroller at rest: one node per child, an active index that is
    the index of a child, and no scroll in flight. *)
Definition atRest (that : Frames) : Prop :=
  Z.of_nat (length (childrenRefs that)) = total that /\
  0 <= activeIndex that < total that /\
  isBusy that = false /\ scrolling that = [].

End ScrollWip.

(** Three looping frames mounted on the last child (internal index 4). *)
Definition mountedOnLastOfLoop : Frames :=
  Eval cbv in
    match mounted 2
            {| draggable := true; swipeable := true; isVertical := false;
               frameBoundary := 0.25%float; startFrame := 4; loop := true;
               clonesCount := 2; onFrameUpdate := true;
               children := [Some "A"; Some "B"; Some "C"]%string |} 300 with
    | Some s => s
    | None => constructor threeFramesLoop
    end.

(** Three looping frames without any clone, mounted on the last child. *)
Definition mountedLoopWithoutClones : Frames :=
  Eval cbv in
    match mounted 2
            {| draggable := true; swipeable := true; isVertical := false;
               frameBoundary := 0.25%float; startFrame := 2; loop := true;
               clonesCount := 0; onFrameUpdate := true;
               children := [Some "A"; Some "B"; Some "C"]%string |} 300 with
    | Some s => s
    | None => constructor threeFramesLoop
    end.

(** A swipe to the left by 40, delivered by a [pointerup]. *)
Definition swipeLeft40 : HammerInput :=
  {| type := "swipeleft"; deltaX := -40; deltaY := 0;
     srcEventType := "pointerup" |}.

(** A scroller of three children at rest on the last one. *)
Definition scrollerOnLast : ScrollWip.Frames :=
  {| ScrollWip.total := 3; ScrollWip.childrenRefs := [10; 11; 12]%nat;
     ScrollWip.activeIndex := 2; ScrollWip.activeFrame := Some 12%nat;
     ScrollWip.isBusy := false; ScrollWip.scrolling := [];
     ScrollWip.scrolledTo := [] |}.

(** Two animated moves in a row, then the expiry of the older timer. *)
Definition twoMovesOneExpiry (fuel : nat) (i1 i2 : Z) (s : Frames)
    : option Frames :=
  andThen (goToFrame fuel i1 true s)
    (fun s1 => andThen (goToFrame fuel i2 true s1) (timeout fuel 0)).

(** A pan end 10 to the left, delivered by a [pointerup]. *)
Definition panEndLeft10 : HammerInput :=
  {| type := "panend"; deltaX := -10; deltaY := 0;
     srcEventType := "pointerup" |}.

(** Three frames without looping after [next()], its timer still pending. *)
Definition nextPending : Frames :=
  Eval cbv in
    match run 1 [CallNext] mountedThreeFrames with
    | Some s => s
    | None => mountedThreeFrames
    end.

(** The same component after a pan end of 10 pixels and the expiry of the timer
    of [next()]: frame 1 is active and the timer of the snap back is pending. *)
Definition snapBackPending : Frames :=
  Eval cbv in
    match run 1 [Gesture panEndLeft10; Timeout 0] nextPending with
    | Some s => s
    | None => nextPending
    end.


(** A pan move 3 to the right, delivered by a [pointermove]. *)
Definition panRight3 : HammerInput :=
  {| type := "panright"; deltaX := 3; deltaY := 0;
     srcEventType := "pointermove" |}.

(** * Properties *)

Ltac fields :=
  cbn [props SWIPE_PREV SWIPE_NEXT PAN_PREV PAN_NEXT frames frameSize
       activeIndex transform moving timers effects
       set_frames set_frameSize set_activeIndex set_transform set_moving
       set_timers emit tIndex tFramesCount tLoop tOnFrameUpdate framesCount] in *.

(** ** Rendering *)

Lemma length_preClones n arr i acc :
  length (preClones n arr i acc) = (n + length acc)%nat.
Proof.
  revert i acc; induction n as [|n IH]; intros i acc; simpl; [reflexivity|].
  rewrite IH; simpl; lia.
Qed.

Lemma length_postClones n arr i acc :
  length (postClones n arr i acc) = (n + length acc)%nat.
Proof.
  revert i acc; induction n as [|n IH]; intros i acc; simpl; [reflexivity|].
  rewrite IH, length_app; simpl; lia.
Qed.

Lemma length_toArray kids : (length (toArray kids) <= length kids)%nat.
Proof.
  induction kids as [|[child|] kids IH]; simpl; lia.
Qed.

Lemma length_getChildren kids c l :
  getChildren kids c = Some l ->
  Z.of_nat (length l) = Z.of_nat (length (toArray kids)) + 2 * Z.max 0 c.
Proof.
  unfold getChildren.
  destruct (Z.of_nat (length (toArray kids)) =? 0); [discriminate|].
  destruct (Z.eqb_spec c 0) as [->|Hc]; intros [= <-].
  - rewrite length_map; lia.
  - rewrite length_postClones, length_preClones, length_map; lia.
Qed.

Lemma getChildren_none kids c :
  getChildren kids c = None <-> toArray kids = [].
Proof.
  unfold getChildren; destruct (toArray kids) as [|k arr]; simpl length.
  - split; reflexivity.
  - replace (Z.of_nat (S (length arr)) =? 0) with false
      by (symmetry; apply Z.eqb_neq; lia).
    destruct (c =? 0); split; discriminate.
Qed.

(** The padded sequence has the real frames plus the clones on both sides. *)
Lemma framesCount_rendered that :
  rendered that -> framesCount that <> 0 ->
  framesCount that =
    Z.of_nat (length (toArray (children (props that))))
    + 2 * Z.max 0 (if loop (props that) then getClonesCount (props that) else 0)
  /\ 0 < Z.of_nat (length (toArray (children (props that)))).
Proof.
  unfold rendered, framesCount, render; intros -> Hne.
  destruct (getChildren _ _) as [l|] eqn:E.
  - split; [now apply length_getChildren|].
    destruct (toArray (children (props that))) eqn:K; [|simpl; lia].
    rewrite (proj2 (getChildren_none _ _) K) in E; discriminate.
  - now elim Hne.
Qed.

(** With the rendered frames the range of real frames is not empty. *)
Lemma first_le_last that :
  rendered that -> framesCount that <> 0 -> loop (props that) = true ->
  getClonesCount (props that)
  <= (framesCount that - 1) - getClonesCount (props that).
Proof.
  intros R Hne L; destruct (framesCount_rendered that R Hne) as [E Hpos].
  rewrite E, L; unfold getClonesCount in *; lia.
Qed.

(** ** Frame conditions *)

Lemma stable_refl s : stable s s.
Proof.
  unfold stable; repeat split; exists []; now rewrite app_nil_r.
Qed.

Lemma stable_trans s1 s2 s3 : stable s1 s2 -> stable s2 s3 -> stable s1 s3.
Proof.
  unfold stable.
  intros (P1 & F1 & Z1 & A1 & B1 & C1 & D1 & l1 & E1)
         (P2 & F2 & Z2 & A2 & B2 & C2 & D2 & l2 & E2).
  repeat split; try congruence.
  exists (l1 ++ l2); now rewrite E2, E1, app_assoc.
Qed.

Lemma stable_emit e s : stable s (emit e s).
Proof. unfold stable; fields; repeat split; now exists [e]. Qed.

Lemma stable_set_transform q s : stable s (set_transform q s).
Proof. unfold stable; fields; repeat split; exists []; now rewrite app_nil_r. Qed.

Lemma stable_set_activeIndex i s : stable s (set_activeIndex i s).
Proof. unfold stable; fields; repeat split; exists []; now rewrite app_nil_r. Qed.

Lemma stable_set_moving b s : stable s (set_moving b s).
Proof. unfold stable; fields; repeat split; exists []; now rewrite app_nil_r. Qed.

Lemma stable_set_timers l s : stable s (set_timers l s).
Proof. unfold stable; fields; repeat split; exists []; now rewrite app_nil_r. Qed.

Create HintDb frames.
#[local] Hint Resolve stable_refl stable_emit stable_set_transform
  stable_set_activeIndex stable_set_moving stable_set_timers : frames.

Section CompletionFacts.

Variable G : Z -> bool -> Frames -> option Frames.
Hypothesis G_stable : forall i a x x', G i a x = Some x' -> stable x x'.

Lemma done_stable t s s' : done G t s = Some s' -> stable s s'.
Proof.
  unfold done.
  destruct (tLoop t && _); [apply G_stable|].
  intros [= <-].
  destruct (tOnFrameUpdate t); eauto using stable_trans with frames.
Qed.

Lemma callDone_stable cb s s' : callDone G cb s = Some s' -> stable s s'.
Proof.
  destruct cb as [t|]; simpl; [apply done_stable|].
  intros [= <-]; auto with frames.
Qed.

Lemma moveContainerBy_stable px a cb s s' :
  moveContainerBy G px a cb s = Some s' -> stable s s'.
Proof.
  unfold moveContainerBy.
  assert (stable s (emit (Translate px) (set_transform px s)))
    by eauto using stable_trans with frames.
  destruct a.
  - intros [= <-]; eauto using stable_trans with frames.
  - intros D; apply callDone_stable in D; eauto using stable_trans.
Qed.

End CompletionFacts.

Lemma goToFrame_stable fuel :
  forall index animate s s',
    goToFrame fuel index animate s = Some s' -> stable s s'.
Proof.
  induction fuel as [|fuel IH]; intros index animate s s'; simpl; [discriminate|].
  destruct (_ || _).
  - intros [= <-]; auto with frames.
  - apply moveContainerBy_stable, IH.
Qed.

Lemma timeout_stable fuel k s s' : timeout fuel k s = Some s' -> stable s s'.
Proof.
  unfold timeout; destruct (nth_error (timers s) k) as [cb|].
  - intros D; apply callDone_stable in D; [|apply goToFrame_stable].
    eauto using stable_trans with frames.
  - intros [= <-]; auto with frames.
Qed.

Lemma prevOrNext_stable fuel d s s' : prevOrNext fuel d s = Some s' -> stable s s'.
Proof.
  unfold prevOrNext, prev, next; destruct (gtJS d 0); apply goToFrame_stable.
Qed.

Lemma onEvents_stable fuel e s s' : onEvents fuel e s = Some s' -> stable s s'.
Proof.
  unfold onEvents.
  assert (commit : forall d, andThen (prevOrNext fuel d s) hammerStop = Some s' ->
                             stable s s').
  { intros d; destruct (prevOrNext fuel d s) as [x|] eqn:E; simpl; [|discriminate].
    intros [= <-]; apply prevOrNext_stable in E; eauto using stable_trans with frames. }
  destruct (String.eqb (srcEventType e) _);
    [intros [= <-]; auto with frames|].
  destruct (_ || _).
  { destruct (gtJS _ _); [apply commit|].
    apply moveContainerBy_stable, goToFrame_stable. }
  destruct (_ || _); [apply commit|].
  destruct (_ || _); [|intros [= <-]; auto with frames].
  destruct (gtJS _ _); [apply prevOrNext_stable|apply goToFrame_stable].
Qed.

(** Every state the component reaches after mounting has the rendered
    frames and the event names of its constructor. *)
Lemma stable_rendered s s' : stable s s' -> rendered s -> rendered s'.
Proof.
  unfold rendered; intros (P & F & _) R; now rewrite P, F.
Qed.

Lemma stable_constructed s s' : stable s s' -> constructed s -> constructed s'.
Proof.
  intros (_ & _ & _ & A & B & C & D & _) (p & Hp); exists p.
  rewrite A, B, C, D; exact Hp.
Qed.

Lemma init_rendered fuel measured s s' :
  init fuel measured s = Some s' -> rendered s'.
Proof.
  unfold init; intros H; apply goToFrame_stable in H.
  apply (stable_rendered _ _ H); reflexivity.
Qed.

Lemma step_rendered fuel ev s s' :
  rendered s -> step fuel ev s = Some s' -> rendered s'.
Proof.
  intros R H; destruct ev; cbn [step] in H;
    try (apply init_rendered in H; exact H);
    refine (stable_rendered _ _ _ R).
  - now apply goToFrame_stable in H.
  - now apply goToFrame_stable in H.
  - now apply goToFrame_stable in H.
  - now apply onEvents_stable in H.
  - now apply timeout_stable in H.
Qed.

Lemma run_rendered fuel evs :
  forall s s', rendered s -> run fuel evs s = Some s' -> rendered s'.
Proof.
  induction evs as [|ev evs IH]; intros s s' R; cbn [run].
  - now intros [= <-].
  - destruct (step fuel ev s) as [s1|] eqn:E; cbn [andThen]; [|discriminate].
    apply IH; eapply step_rendered; eassumption.
Qed.

Lemma mounted_rendered fuel p measured s :
  mounted fuel p measured = Some s -> rendered s /\ constructed s.
Proof.
  unfold mounted, componentDidMount; intros H; split.
  - exact (init_rendered _ _ _ _ H).
  - unfold init in H; apply goToFrame_stable in H.
    apply (stable_constructed _ _ H); exists p; repeat split.
Qed.

(** ** Termination *)

(** The completion callback returns as soon as the frames are the rendered
    ones: a seam jump lands on a real frame, whose completion finalises. *)
Lemma done_terminates fuel t s :
  rendered s -> tFramesCount t = framesCount s ->
  exists s', done (goToFrame (S fuel)) t s = Some s'.
Proof.
  intros R Ht; unfold done.
  destruct (tLoop t && _); [|eauto].
  set (target := if activeIndex s <=? tIndex t then _ else _).
  cbn [goToFrame].
  destruct (Z.eqb_spec (framesCount s) 0) as [|Hne]; [simpl; eauto|].
  destruct (_ || _); [eauto|].
  unfold moveContainerBy, callDone, done; fields.
  destruct (loop (props s)) eqn:L; [|simpl; eauto].
  pose proof (first_le_last s R Hne L) as Hfl.
  replace (_ || _) with false; [simpl; eauto|].
  symmetry; apply orb_false_iff; split;
    [apply Z.ltb_ge|rewrite Z.gtb_ltb; apply Z.ltb_ge];
    subst target; rewrite Ht; destruct (activeIndex s <=? tIndex t); lia.
Qed.

Lemma goToFrame_terminates fuel index animate s :
  rendered s -> exists s', goToFrame (S (S fuel)) index animate s = Some s'.
Proof.
  intros R; cbn [goToFrame].
  destruct (_ || _); [eauto|].
  unfold moveContainerBy; destruct animate; [eauto|].
  unfold callDone.
  apply done_terminates; [|reflexivity].
  unfold rendered in *; fields; exact R.
Qed.

(** ** Acceptance and completion *)

Lemma guard_accepts s index :
  (framesCount s =? 0) || (index <? 0) || (index >? framesCount s) = false
  <-> accepts s index.
Proof.
  unfold accepts; rewrite !orb_false_iff, Z.eqb_neq, Z.ltb_ge, Z.gtb_ltb, Z.ltb_ge.
  lia.
Qed.

Lemma guard_rejects s index :
  (framesCount s =? 0) || (index <? 0) || (index >? framesCount s) = true
  <-> framesCount s = 0 \/ index < 0 \/ index > framesCount s.
Proof.
  rewrite !orb_true_iff, Z.eqb_eq, Z.ltb_lt, Z.gtb_ltb, Z.ltb_lt. lia.
Qed.

Lemma goToFrame_rejected fuel index animate s :
  framesCount s = 0 \/ index < 0 \/ index > framesCount s ->
  goToFrame (S fuel) index animate s = Some s.
Proof.
  intros H; apply guard_rejects in H; cbn [goToFrame]; now rewrite H.
Qed.

Lemma goToFrame_accepted fuel index animate s :
  accepts s index ->
  goToFrame (S fuel) index animate s =
  moveContainerBy (goToFrame fuel) (offset s index) animate
    (Some (closure s index)) s.
Proof.
  intros H; apply guard_accepts in H; cbn [goToFrame]; now rewrite H.
Qed.

(** An animated move only writes the offset and leaves a timer behind. *)
Lemma goToFrame_animated fuel index s :
  accepts s index ->
  goToFrame (S fuel) index true s =
  Some (set_timers (timers s ++ [Some (closure s index)])
          (set_moving true
             (emit (Translate (offset s index))
                (set_transform (offset s index) s)))).
Proof.
  intros H; rewrite goToFrame_accepted by assumption; reflexivity.
Qed.

Lemma done_clone G t s :
  landsOnClone t s = true ->
  done G t s =
  G (if activeIndex s <=? tIndex t then getClonesCount (props s)
     else (tFramesCount t - 1) - getClonesCount (props s)) false s.
Proof.
  unfold landsOnClone, done; intros ->; reflexivity.
Qed.

Lemma done_real G t s :
  landsOnClone t s = false ->
  done G t s =
  Some (if tOnFrameUpdate t
        then emit (FrameUpdate
                     (toPublic (tLoop t) (getClonesCount (props s)) (tIndex t)))
               (set_activeIndex (tIndex t) s)
        else set_activeIndex (tIndex t) s).
Proof.
  unfold landsOnClone, done; intros ->; reflexivity.
Qed.

Lemma landsOnClone_false t s :
  landsOnClone t s = false <->
  (tLoop t = true ->
   getClonesCount (props s) <= tIndex t
   <= (tFramesCount t - 1) - getClonesCount (props s)).
Proof.
  unfold landsOnClone; destruct (tLoop t); simpl.
  - rewrite orb_false_iff, Z.ltb_ge, Z.gtb_ltb, Z.ltb_ge; split; [intros H _|intros H]; lia.
  - split; [discriminate|reflexivity].
Qed.

(** Removing the timer registered last leaves the earlier ones. *)
Lemma remove_last_timer {A} (l : list A) (x : A) :
  nth_error (l ++ [x]) (length l) = Some x /\
  firstn (length l) (l ++ [x]) ++ skipn (S (length l)) (l ++ [x]) = l.
Proof.
  split.
  - rewrite nth_error_app2, Nat.sub_diag by lia; reflexivity.
  - rewrite firstn_app, Nat.sub_diag, firstn_all, firstn_O, app_nil_r.
    rewrite (skipn_all2 (l ++ [x])) by (rewrite length_app; simpl; lia).
    now rewrite app_nil_r.
Qed.

(** ** Index compensation *)

(** C1: going from a public index to the internal one (as [goTo] does) and
    back (as done for [onFrameUpdate]) gives the index again, and so does the
    converse, whatever the clones count; without looping both are the
    identity. *)
Theorem index_compensation_roundtrip (looping : bool) (clones i : Z) :
  toPublic looping clones (toInternal looping clones i) = i /\
  toInternal looping clones (toPublic looping clones i) = i /\
  toInternal false clones i = i /\
  toPublic false clones i = i.
Proof.
  unfold toPublic, toInternal; destruct looping; repeat split; lia.
Qed.

(** ** Completion of a transition *)

(** In loop mode an accepted index that lies off the real frames forces a
    non-negative clones count, and both ends of the real range are then
    accepted indices. *)
Lemma clone_bounds s index :
  rendered s -> accepts s index -> loop (props s) = true ->
  index < getClonesCount (props s)
  \/ index > (framesCount s - 1) - getClonesCount (props s) ->
  0 <= getClonesCount (props s) <= framesCount s /\
  0 <= (framesCount s - 1) - getClonesCount (props s) <= framesCount s /\
  getClonesCount (props s) <= (framesCount s - 1) - getClonesCount (props s).
Proof.
  intros R [Hne Hi] L Hc.
  destruct (framesCount_rendered s R Hne) as [E Hpos]; rewrite L in E.
  unfold getClonesCount in *; lia.
Qed.

(** What the completion callback of an accepted transition leaves behind when
    it runs in a state [s] whose frames are the rendered ones: the index it
    settles on, the log, and nothing else pending. *)
Lemma done_settles fuel t s :
  rendered s ->
  tFramesCount t = framesCount s -> tLoop t = loop (props s) ->
  tOnFrameUpdate t = onFrameUpdate (props s) ->
  accepts s (tIndex t) ->
  let first := getClonesCount (props s) in
  let last := (framesCount s - 1) - first in
  let target :=
    if landsOnClone t s
    then (if activeIndex s <=? tIndex t then first else last)
    else tIndex t in
  exists s',
    done (goToFrame (S fuel)) t s = Some s' /\
    activeIndex s' = target /\
    timers s' = timers s /\
    moving s' = moving s /\
    transform s' =
      (if landsOnClone t s then Some (offset s target) else transform s) /\
    effects s' =
      effects s
      ++ (if landsOnClone t s then [Translate (offset s target)] else [])
      ++ (if onFrameUpdate (props s)
          then [FrameUpdate (toPublic (loop (props s)) first target)] else []).
Proof.
  intros R Hfc Hl Hcb Hacc first last target.
  destruct (landsOnClone t s) eqn:C.
  - assert (L : loop (props s) = true).
    { rewrite <- Hl; unfold landsOnClone in C; now destruct (tLoop t). }
    assert (Hoff : tIndex t < first \/ tIndex t > last).
    { unfold landsOnClone in C; rewrite Hl, L, Hfc in C; simpl in C.
      apply orb_true_iff in C; rewrite Z.ltb_lt, Z.gtb_ltb, Z.ltb_lt in C.
      subst first last; lia. }
    destruct (clone_bounds s (tIndex t) R Hacc L Hoff) as (Hf & Hla & Hfl).
    fold first in Hf, Hla, Hfl; fold last in Hla, Hfl.
    rewrite done_clone by assumption; rewrite Hfc; fold first last target.
    assert (Ht : accepts s target).
    { split; [apply Hacc|]; subst target; destruct (_ <=? _); assumption. }
    rewrite goToFrame_accepted by assumption.
    unfold moveContainerBy, callDone.
    rewrite done_real.
    2:{ apply landsOnClone_false; unfold closure; fields; intros _.
        fold first last; subst target; destruct (_ <=? _); lia. }
    unfold closure; fields.
    eexists; split; [reflexivity|].
    destruct (onFrameUpdate (props s)); fields; repeat split;
      now rewrite <- ?app_assoc.
  - rewrite done_real by assumption; rewrite Hcb, Hl.
    eexists; split; [reflexivity|].
    destruct (onFrameUpdate (props s)); fields; repeat split;
      now rewrite ?app_nil_r.
Qed.

(** An accepted move, run to completion in either mode. *)
Lemma settle_result fuel index animate s :
  rendered s -> accepts s index ->
  let first := getClonesCount (props s) in
  let last := (framesCount s - 1) - first in
  let clone := landsOnClone (closure s index) s in
  let target :=
    if clone then (if activeIndex s <=? index then first else last)
    else index in
  exists s',
    settle (S (S fuel)) index animate s = Some s' /\
    activeIndex s' = target /\
    timers s' = timers s /\
    transform s' = Some (offset s target) /\
    effects s' =
      effects s ++ [Translate (offset s index)]
      ++ (if clone then [Translate (offset s target)] else [])
      ++ (if onFrameUpdate (props s)
          then [FrameUpdate (toPublic (loop (props s)) first target)] else []).
Proof.
  intros R Hacc first last clone target.
  unfold settle, settleAt.
  destruct animate.
  - rewrite goToFrame_animated by assumption; cbn [andThen].
    unfold timeout; fields.
    destruct (remove_last_timer (timers s) (Some (closure s index))) as [-> ->].
    cbn [callDone].
    match goal with |- context [done _ _ ?x] => set (s1 := x) end.
    destruct (done_settles (S fuel) (closure s index) s1) as (s' & D & A & T & _ & X & E);
      try reflexivity; try assumption.
    exists s'; split; [exact D|].
    subst s1; unfold landsOnClone, offset in *; fields.
    fold first last in A, X, E |- *.
    repeat split; try assumption.
    + rewrite X; subst clone target; unfold landsOnClone; fields.
      destruct (_ && _); reflexivity.
    + rewrite E, <- app_assoc; reflexivity.
  - rewrite goToFrame_accepted by assumption.
    unfold moveContainerBy, callDone.
    match goal with |- context [done _ _ ?x] => set (s1 := x) end.
    destruct (done_settles fuel (closure s index) s1) as (s' & D & A & T & _ & X & E);
      try reflexivity; try assumption.
    exists s'; split; [exact D|].
    subst s1; unfold landsOnClone, offset in *; fields.
    fold first last in A, X, E |- *.
    repeat split; try assumption.
    + rewrite X; subst clone target; unfold landsOnClone; fields.
      destruct (_ && _); reflexivity.
    + rewrite E, <- app_assoc; reflexivity.
Qed.

(** ** Seam jumps *)

(** C2, as stated, fails: in the mounted three-frame loop (seven slots,
    settled on the first real frame, internal index 2) an animated move that
    completes on the clone at index 0 ends on index 4, not 2, and one that
    completes on the clone at index 6 ends on index 2, not 4. *)
Lemma seam_jump_example_counterexample :
  exists s,
    mounted 2 threeFramesLoop 300 = Some s /\
    framesCount s = 7 /\ activeIndex s = 2 /\
    option_map activeIndex (settleAt 2 0 s) = Some 4 /\
    option_map activeIndex (settleAt 2 0 s) <> Some 2 /\
    option_map activeIndex (settleAt 2 6 s) = Some 2 /\
    option_map activeIndex (settleAt 2 6 s) <> Some 4.
Proof.
  eexists; split; [vm_compute; reflexivity|].
  vm_compute; repeat split; discriminate.
Qed.

(** C2, amended: an accepted animated move that completes, in loop mode, on an
    index outside [first, last] is followed at once by an unanimated move (no
    timer is left) to [first] if [activeIndex <= index] and to [last]
    otherwise, and the component settles there; otherwise it settles on the
    index itself.  With three frames and two clones there are seven slots;
    from a real frame (2..4) completing at 0 settles on 4 and completing at 6
    settles on 2, and completing at 0 settles on 2 only from an active index
    that is not positive. *)
Theorem seam_jump_settles (fuel : nat) (s : Frames) (index : Z) :
  rendered s -> accepts s index ->
  let first := getClonesCount (props s) in
  let last := (framesCount s - 1) - first in
  let clone := loop (props s) && ((index <? first) || (index >? last)) in
  let target :=
    if clone then (if activeIndex s <=? index then first else last)
    else index in
  exists s',
    settleAt (S (S fuel)) index s = Some s' /\
    activeIndex s' = target /\
    timers s' = timers s /\
    transform s' = Some (offset s target) /\
    effects s' =
      effects s ++ [Translate (offset s index)]
      ++ (if clone then [Translate (offset s target)] else [])
      ++ (if onFrameUpdate (props s)
          then [FrameUpdate (toPublic (loop (props s)) first target)] else []) /\
    (loop (props s) = true ->
     length (toArray (children (props s))) = 3%nat ->
     clonesCount (props s) = 2 ->
     framesCount s = 7 /\
     (index = 0 -> 2 <= activeIndex s <= 4 -> activeIndex s' = 4) /\
     (index = 6 -> 2 <= activeIndex s <= 4 -> activeIndex s' = 2) /\
     (index = 0 -> activeIndex s <= 0 -> activeIndex s' = 2)).
Proof.
  intros R Hacc first last clone target.
  destruct (settle_result fuel index true s R Hacc) as (s' & D & A & T & X & E).
  exists s'; do 5 (split; [assumption|]).
  intros L K C.
  destruct Hacc as [Hne _].
  destruct (framesCount_rendered s R Hne) as [Hc _].
  assert (Hg : getClonesCount (props s) = 2).
  { unfold getClonesCount, count; rewrite C.
    pose proof (length_toArray (children (props s))); lia. }
  rewrite L, K, Hg in Hc.
  change (framesCount s = 7) in Hc.
  split; [exact Hc|].
  rewrite A; unfold landsOnClone, closure; fields.
  rewrite L, Hg, Hc; cbn [andb].
  repeat split; intros -> Ha; simpl;
    match goal with |- context [?a <=? ?b] => destruct (Z.leb_spec a b) end; lia.
Qed.

Lemma seam_jump_settles_witness :
  rendered mountedThreeFramesLoop /\ accepts mountedThreeFramesLoop 0 /\
  exists s', settleAt 2 0 mountedThreeFramesLoop = Some s' /\ activeIndex s' = 4.
Proof.
  assert (R : rendered mountedThreeFramesLoop) by reflexivity.
  assert (A : accepts mountedThreeFramesLoop 0)
    by (split; [discriminate|split; discriminate]).
  split; [exact R|split; [exact A|]].
  destruct (seam_jump_settles 0 mountedThreeFramesLoop 0 R A)
    as (s' & D & Ai & _).
  exists s'; split; [exact D|exact Ai].
Defined.

(** ** The guard of [goToFrame] *)

(** C6: [goToFrame] leaves the component untouched (nothing written on the
    container, no index change, no call of [onFrameUpdate]) exactly when
    there are no frames, or the index is negative, or it exceeds the number
    of frames; it always returns; and the index equal to the number of frames
    is taken. *)
Theorem goToFrame_noop_iff (fuel : nat) (s : Frames) (index : Z) (animate : bool) :
  rendered s ->
  exists s',
    goToFrame (S (S fuel)) index animate s = Some s' /\
    (s' = s <-> framesCount s = 0 \/ index < 0 \/ index > framesCount s) /\
    (accepts s index ->
     exists l, effects s' = effects s ++ Translate (offset s index) :: l) /\
    (framesCount s <> 0 -> index = framesCount s -> s' <> s).
Proof.
  intros R.
  destruct (goToFrame_terminates fuel index animate s R) as [s' D].
  exists s'; split; [exact D|].
  destruct ((framesCount s =? 0) || (index <? 0) || (index >? framesCount s)) eqn:G.
  - apply guard_rejects in G.
    rewrite goToFrame_rejected in D by assumption.
    injection D as <-.
    assert (0 <= framesCount s) by (unfold framesCount; lia).
    split; [tauto|]; split; [|lia].
    unfold accepts; lia.
  - apply guard_accepts in G.
    assert (E : exists l, effects s' = effects s ++ Translate (offset s index) :: l).
    { rewrite goToFrame_accepted in D by assumption.
      unfold moveContainerBy in D; destruct animate.
      - injection D as <-; fields; now exists [].
      - apply callDone_stable in D; [|apply goToFrame_stable].
        destruct D as (_ & _ & _ & _ & _ & _ & _ & l & El); fields.
        exists l; now rewrite El, <- app_assoc. }
    assert (N : s' <> s).
    { intros ->; destruct E as [l E].
      apply (f_equal (@length _)) in E; rewrite length_app in E; simpl in E; lia. }
    split; [|split; [intros _; exact E|intros _ _; exact N]].
    split; [intros K; now elim N|].
    unfold accepts in G; lia.
Qed.

Lemma goToFrame_noop_iff_witness :
  rendered mountedThreeFramesLoop /\
  exists s',
    goToFrame 2 7 false mountedThreeFramesLoop = Some s' /\
    s' <> mountedThreeFramesLoop.
Proof.
  assert (R : rendered mountedThreeFramesLoop) by reflexivity.
  split; [exact R|].
  destruct (goToFrame_noop_iff 0 mountedThreeFramesLoop 7 false R)
    as (s' & D & _ & _ & N).
  exists s'; split; [exact D|].
  apply N; [discriminate|reflexivity].
Defined.

(** ** Re-settling on the active frame *)

(** [init] (and so [recalculate], a resize and every update) re-targets the
    active index without animation. *)
Lemma init_resettles fuel measured s :
  init fuel measured s =
  goToFrame fuel (activeIndex s) false
    (set_frameSize measured (set_frames (render (props s)) s)).
Proof. reflexivity. Qed.

(** C10, as stated, fails for the animated snap back: its completion runs
    when its timer expires, and the active index may have changed by then.
    With three frames and no looping, [next()] followed by a pan end of 10
    pixels (below the boundary of 75, so [goToFrame] is called with the
    active index 0) leaves two timers; the first completion activates frame
    1, and the completion of the snap back then moves the active index from
    1 back to 0 and reports 0: the index stored is not the one the component
    had, and the reports are 0, 1, 0. *)
Lemma resettle_counterexample :
  exists s3,
    run 1 [CallNext] mountedThreeFrames = Some nextPending /\
    activeIndex nextPending = 0 /\
    onEvents 1 panEndLeft10 nextPending
      = goToFrame 1 (activeIndex nextPending) true nextPending /\
    run 1 [Gesture panEndLeft10; Timeout 0] nextPending = Some snapBackPending /\
    activeIndex snapBackPending = 1 /\
    timers snapBackPending = [Some (closure nextPending 0)] /\
    timeout 1 0 snapBackPending = Some s3 /\
    activeIndex s3 = 0 /\
    activeIndex s3 <> activeIndex snapBackPending /\
    frameUpdates (effects snapBackPending) = [0; 1] /\
    frameUpdates (effects s3) = [0; 1; 0].
Proof.
  eexists.
  split; [reflexivity|].
  split; [reflexivity|].
  split; [reflexivity|].
  split; [reflexivity|].
  split; [reflexivity|].
  split; [reflexivity|].
  split; [vm_compute; reflexivity|].
  split; [reflexivity|].
  split; [discriminate|].
  split; reflexivity.
Qed.

(** C10, amended: let [goToFrame] be called with the active index as target,
    that index being accepted and off a clone, and a callback configured.
    Unanimated (the re-settle of [init], [recalculate] and a resize) the move
    completes within the call: the index the component already had is
    stored again and [onFrameUpdate] is called again with its public index.
    Animated (the snap back of a pan end) the call only moves the container
    and leaves a timer; when that timer expires at once the outcome is the
    same, and when it expires in any later state of the same props the
    completion stores the index that was active at the call and reports its
    public index, which leaves the active index unchanged exactly when no
    other completion has changed it in between. *)
Theorem resettle_notifies_again (fuel : nat) (s : Frames) :
  accepts s (activeIndex s) ->
  (loop (props s) = true ->
   getClonesCount (props s) <= activeIndex s
   <= (framesCount s - 1) - getClonesCount (props s)) ->
  onFrameUpdate (props s) = true ->
  let report :=
    FrameUpdate (toPublic (loop (props s)) (getClonesCount (props s))
                   (activeIndex s)) in
  (forall animate, exists s',
     settle (S fuel) (activeIndex s) animate s = Some s' /\
     activeIndex s' = activeIndex s /\
     timers s' = timers s /\
     effects s' =
       effects s ++ [Translate (offset s (activeIndex s)); report]) /\
  (exists s1,
     goToFrame (S fuel) (activeIndex s) true s = Some s1 /\
     activeIndex s1 = activeIndex s /\
     timers s1 = timers s ++ [Some (closure s (activeIndex s))] /\
     effects s1 = effects s ++ [Translate (offset s (activeIndex s))]) /\
  (forall s2 k,
     props s2 = props s ->
     nth_error (timers s2) k = Some (Some (closure s (activeIndex s))) ->
     exists s3,
       timeout fuel k s2 = Some s3 /\
       activeIndex s3 = activeIndex s /\
       effects s3 = effects s2 ++ [report] /\
       (activeIndex s3 = activeIndex s2 <-> activeIndex s2 = activeIndex s)).
Proof.
  intros Hacc Hreal Hcb report.
  split; [|split].
  - intros animate; unfold settle, settleAt; destruct animate.
    + rewrite goToFrame_animated by assumption; cbn [andThen].
      unfold timeout; fields.
      destruct (remove_last_timer (timers s) (Some (closure s (activeIndex s))))
        as [-> ->].
      cbn [callDone].
      rewrite done_real by (apply landsOnClone_false; exact Hreal).
      unfold closure; fields; rewrite Hcb.
      eexists; split; [reflexivity|]; fields.
      repeat split; now rewrite <- app_assoc.
    + rewrite goToFrame_accepted by assumption.
      unfold moveContainerBy, callDone.
      rewrite done_real by (apply landsOnClone_false; exact Hreal).
      unfold closure; fields; rewrite Hcb.
      eexists; split; [reflexivity|]; fields.
      repeat split; now rewrite <- app_assoc.
  - rewrite goToFrame_animated by assumption.
    eexists; split; [reflexivity|]; fields.
    repeat split.
  - intros s2 k Hp Hk.
    unfold timeout; rewrite Hk; cbn [callDone].
    assert (L : forall x, props x = props s2 ->
                landsOnClone (closure s (activeIndex s)) x = false).
    { intros x Hx; apply landsOnClone_false; rewrite Hx, Hp; exact Hreal. }
    rewrite done_real by (apply L; reflexivity).
    unfold closure; fields; rewrite Hcb, Hp.
    eexists; split; [reflexivity|]; fields.
    split; [reflexivity|split; [reflexivity|]].
    split; intros E; now rewrite E.
Qed.

Lemma resettle_notifies_again_witness :
  accepts nextPending (activeIndex nextPending) /\
  (exists s',
     settle 1 (activeIndex nextPending) false nextPending = Some s' /\
     activeIndex s' = 0 /\
     frameUpdates (effects s') = [0; 0]) /\
  (exists s3,
     timeout 0 0 snapBackPending = Some s3 /\
     activeIndex s3 = 0 /\
     frameUpdates (effects s3) = [0; 1; 0]).
Proof.
  assert (A : accepts nextPending (activeIndex nextPending))
    by (split; [discriminate|split; discriminate]).
  split; [exact A|].
  destruct (resettle_notifies_again 0 nextPending A) as (U & _ & T).
  - discriminate.
  - reflexivity.
  - split.
    + destruct (U false) as (s' & D & Ai & _ & E).
      exists s'; split; [exact D|split; [exact Ai|]].
      rewrite E; reflexivity.
    + destruct (T snapBackPending 0%nat eq_refl eq_refl)
        as (s3 & D & Ai & E & _).
      exists s3; split; [exact D|split; [exact Ai|]].
      rewrite E; reflexivity.
Defined.

(** ** Clamped stepping *)

Lemma Forall_drop_nth {A} (P : A -> Prop) (l : list A) :
  Forall P l -> forall k, Forall P (firstn k l ++ skipn (S k) l).
Proof.
  induction 1 as [|x l Hx Hl IH]; intros k.
  - destruct k; constructor.
  - destruct k as [|k]; simpl; [assumption|].
    constructor; [assumption|apply IH].
Qed.

Lemma within_timeout fuel n lo hi k s :
  within n lo hi s ->
  exists s', timeout (S fuel) k s = Some s' /\ within n lo hi s'.
Proof.
  intros (Hn & Hl & Ha & Ht); unfold timeout.
  destruct (nth_error (timers s) k) as [cb|] eqn:E.
  2:{ exists s; split; [reflexivity|]; unfold within; auto. }
  assert (Hcb : aimsWithin lo hi cb).
  { rewrite Forall_forall in Ht; apply Ht; eapply nth_error_In; eassumption. }
  assert (Hrest : Forall (aimsWithin lo hi)
                    (firstn k (timers s) ++ skipn (S k) (timers s))).
  { now apply Forall_drop_nth. }
  destruct cb as [t|]; cbn [callDone].
  - destruct Hcb as [Htl Hti].
    rewrite done_real by (apply landsOnClone_false; congruence).
    eexists; split; [reflexivity|].
    destruct (tOnFrameUpdate t); unfold within; fields; repeat split;
      assumption || lia.
  - eexists; split; [reflexivity|].
    unfold within; fields; repeat split; assumption || lia.
Qed.

Lemma within_goToFrame fuel n lo hi index s :
  within n lo hi s -> 0 <= lo -> hi <= n - 1 -> lo <= index <= hi ->
  exists s', goToFrame (S fuel) index true s = Some s' /\ within n lo hi s'.
Proof.
  intros (Hn & Hl & Ha & Ht) Hlo Hhi Hi.
  rewrite goToFrame_animated by (unfold accepts; lia).
  eexists; split; [reflexivity|].
  unfold within; fields; repeat split; try assumption || lia.
  apply Forall_app; split; [assumption|].
  constructor; [|constructor].
  unfold aimsWithin, closure; fields; split; [assumption|lia].
Qed.

(** Stepping never leaves the range: [next] is allowed when the range ends at
    the last frame, [prev] when it starts at the first. *)
Lemma run_within fuel n lo hi (toNext toPrev : bool) evs :
  0 <= lo -> hi <= n - 1 ->
  (toNext = true -> hi = n - 1) -> (toPrev = true -> lo = 0) ->
  forallb (stepping toNext toPrev) evs = true ->
  forall s, within n lo hi s ->
  exists s', run (S fuel) evs s = Some s' /\ within n lo hi s'.
Proof.
  intros Hlo Hhi Hn Hp.
  induction evs as [|ev evs IH]; intros Hevs s W; cbn [run].
  - now exists s.
  - cbn [forallb] in Hevs; apply andb_true_iff in Hevs as [Hev Hevs].
    assert (St : exists s1, step (S fuel) ev s = Some s1 /\ within n lo hi s1).
    { destruct ev; cbn [stepping] in Hev; try discriminate; cbn [step].
      - apply within_goToFrame; try assumption.
        destruct W as (Hc & _ & Ha & _); unfold getNextIndex; rewrite Hc.
        specialize (Hn Hev); lia.
      - apply within_goToFrame; try assumption.
        destruct W as (Hc & _ & Ha & _); unfold getNextIndex.
        specialize (Hp Hev); lia.
      - apply within_timeout; assumption. }
    destruct St as (s1 & -> & W1); cbn [andThen].
    apply IH; assumption.
Qed.

(** C7: [getNextIndex] clamps and never wraps, with looping on or off:
    [next] targets [min(activeIndex + 1, frames.length - 1)] and [prev]
    targets [max(activeIndex - 1, 0)].  Without looping, however [next]
    calls and timer expiries follow one another from the last frame, the
    active index stays the last one; from the first frame [prev] calls keep
    it 0; and any mix of the two keeps it between 0 and the last index. *)
Theorem getNextIndex_clamps (fuel : nat) (s : Frames) :
  getNextIndex true s = Z.min (activeIndex s + 1) (framesCount s - 1) /\
  getNextIndex false s = Z.max (activeIndex s - 1) 0 /\
  next fuel s = goToFrame fuel (Z.min (activeIndex s + 1) (framesCount s - 1)) true s /\
  prev fuel s = goToFrame fuel (Z.max (activeIndex s - 1) 0) true s /\
  (loop (props s) = false -> framesCount s <> 0 -> timers s = [] ->
   (activeIndex s = framesCount s - 1 ->
    forall evs, forallb (stepping true false) evs = true ->
    exists s', run (S fuel) evs s = Some s' /\
               activeIndex s' = framesCount s - 1) /\
   (activeIndex s = 0 ->
    forall evs, forallb (stepping false true) evs = true ->
    exists s', run (S fuel) evs s = Some s' /\ activeIndex s' = 0) /\
   (0 <= activeIndex s <= framesCount s - 1 ->
    forall evs, forallb (stepping true true) evs = true ->
    exists s', run (S fuel) evs s = Some s' /\
               0 <= activeIndex s' <= framesCount s - 1)).
Proof.
  do 4 (split; [reflexivity|]).
  intros L Hne Ht.
  assert (Hpos : 0 <= framesCount s - 1) by (unfold framesCount in *; lia).
  assert (W : forall lo hi, lo <= activeIndex s <= hi ->
                            within (framesCount s) lo hi s).
  { intros lo hi Ha; unfold within; rewrite Ht; auto. }
  repeat split.
  - intros Ha evs Hevs.
    destruct (run_within fuel (framesCount s) (framesCount s - 1)
                (framesCount s - 1) true false evs) with (s := s)
      as (s' & R & _ & _ & Ha' & _);
      try assumption; try lia; try discriminate; try (apply W; lia).
    exists s'; split; [exact R|lia].
  - intros Ha evs Hevs.
    destruct (run_within fuel (framesCount s) 0 0 false true evs) with (s := s)
      as (s' & R & _ & _ & Ha' & _);
      try assumption; try lia; try discriminate; try (apply W; lia).
    exists s'; split; [exact R|lia].
  - intros Ha evs Hevs.
    destruct (run_within fuel (framesCount s) 0 (framesCount s - 1) true true evs)
      with (s := s) as (s' & R & _ & _ & Ha' & _);
      try assumption; try lia; try (apply W; lia).
    exists s'; split; [exact R|lia].
Qed.

Lemma getNextIndex_clamps_witness :
  loop (props mountedOnLastFrame) = false /\
  activeIndex mountedOnLastFrame = framesCount mountedOnLastFrame - 1 /\
  exists s',
    run 1 [CallNext; Timeout 0; CallNext; CallNext; Timeout 1; Timeout 0]
      mountedOnLastFrame = Some s' /\
    activeIndex s' = 2.
Proof.
  split; [reflexivity|split; [reflexivity|]].
  destruct (getNextIndex_clamps 0 mountedOnLastFrame) as (_ & _ & _ & _ & H).
  destruct H as (Hlast & _ & _); [reflexivity|discriminate|reflexivity|].
  destruct (Hlast eq_refl
              [CallNext; Timeout 0; CallNext; CallNext; Timeout 1; Timeout 0]
              eq_refl) as (s' & R & A).
  exists s'; split; [exact R|exact A].
Defined.

(** ** Overlapping transitions *)

Lemma frameUpdates_app l l' :
  frameUpdates (l ++ l') = frameUpdates l ++ frameUpdates l'.
Proof.
  induction l as [|e l IH]; [reflexivity|].
  destruct e; simpl; now rewrite IH.
Qed.





(** ** The start frame *)

Lemma constructor_activeIndex p : activeIndex (constructor p) = startFrame p.
Proof. reflexivity. Qed.

(** C4 does not hold of the code: with looping on, two clones and
    [startFrame = 1] the constructor stores 1 and not the compensated 3; the
    first [init] then finds index 1 on a clone, jumps to internal index 2 and
    reports public frame 0 instead of the requested frame 1. *)
Theorem startFrame_not_compensated :
  activeIndex (constructor loopFromSecond) = 1 /\
  toInternal (loop loopFromSecond) (getClonesCount loopFromSecond)
    (startFrame loopFromSecond) = 3 /\
  exists s,
    mounted 2 loopFromSecond 300 = Some s /\
    activeIndex s = 2 /\
    frameUpdates (effects s) = [0].
Proof.
  split; [reflexivity|split; [reflexivity|]].
  eexists; split; [vm_compute; reflexivity|].
  split; reflexivity.
Qed.

(** ** Gestures *)

Lemma delivered_guard e :
  delivered e -> String.eqb (srcEventType e) "pointercancel" = false.
Proof. intros H; now apply String.eqb_neq. Qed.

Lemma isPanMove_case e s :
  isPanMove e s ->
  String.eqb (type e) (PAN_PREV s) || String.eqb (type e) (PAN_NEXT s) = true.
Proof.
  intros [H|H]; rewrite H, String.eqb_refl; [reflexivity|apply orb_true_r].
Qed.

Lemma isPanEnd_case e s :
  constructed s -> isPanEnd e ->
  String.eqb (type e) (PAN_PREV s) || String.eqb (type e) (PAN_NEXT s) = false /\
  String.eqb (type e) (SWIPE_PREV s) || String.eqb (type e) (SWIPE_NEXT s) = false /\
  String.eqb (type e) PAN_END || String.eqb (type e) PAN_CANCEL = true.
Proof.
  intros (p & -> & -> & -> & ->) [H|H]; rewrite H; cbn [constructor PAN_PREV
    PAN_NEXT SWIPE_PREV SWIPE_NEXT]; destruct (isVertical p); repeat split.
Qed.

(** An animated move returns at once, whatever it is aimed at. *)
Lemma goToFrame_animated_returns fuel index s :
  exists s', goToFrame (S fuel) index true s = Some s' /\
             activeIndex s' = activeIndex s.
Proof.
  cbn [goToFrame]; destruct (_ || _); [now exists s|].
  unfold moveContainerBy; eexists; split; reflexivity.
Qed.

Lemma prevOrNext_returns fuel d s :
  exists s', prevOrNext (S fuel) d s = Some s' /\
             activeIndex s' = activeIndex s.
Proof.
  unfold prevOrNext, prev, next; destruct (gtJS d 0);
    apply goToFrame_animated_returns.
Qed.

Lemma onEvents_pan_end fuel e s :
  constructed s -> delivered e -> isPanEnd e ->
  onEvents fuel e s =
  if gtJS (abs (deltaOf e s)) (frameSize s * frameBoundary (props s))
  then prevOrNext fuel (deltaOf e s) s
  else goToFrame fuel (activeIndex s) true s.
Proof.
  intros C D P; unfold onEvents.
  rewrite (delivered_guard e D).
  destruct (isPanEnd_case e s C P) as (-> & -> & ->); reflexivity.
Qed.

Lemma onEvents_pan_move fuel e s :
  delivered e -> isPanMove e s ->
  onEvents fuel e s =
  let framePos := offset s (activeIndex s) in
  if gtJS (abs (deltaOf e s)) (frameSize s)
  then andThen (prevOrNext fuel (deltaOf e s) s) hammerStop
  else
    let delta :=
      if isOutOfBounds (framePos + deltaOf e s) s && negb (loop (props s))
      then (deltaOf e s * 0.15)%float else deltaOf e s in
    moveContainerBy (goToFrame fuel) (framePos + delta) false None s.
Proof.
  intros D P; unfold onEvents.
  rewrite (delivered_guard e D), (isPanMove_case e s P); reflexivity.
Qed.

Lemma onEvents_pointercancel fuel e s :
  srcEventType e = "pointercancel"%string -> onEvents fuel e s = Some s.
Proof.
  intros H; unfold onEvents; rewrite H; reflexivity.
Qed.

(** C5, as stated, fails: a pan-cancel event whose source event is a
    [pointercancel] returns at the guard; with frames 300 wide and a boundary
    of 0.25 a delta of -76 exceeds the boundary, yet nothing is committed and
    nothing is re-targeted. *)
Lemma pan_end_counterexample :
  isPanEnd cancelledPanEnd /\
  gtJS (abs (deltaOf cancelledPanEnd mountedThreeFrames))
       (frameSize mountedThreeFrames
        * frameBoundary (props mountedThreeFrames)) = true /\
  onEvents 2 cancelledPanEnd mountedThreeFrames = Some mountedThreeFrames /\
  onEvents 2 cancelledPanEnd mountedThreeFrames <> next 2 mountedThreeFrames /\
  onEvents 2 cancelledPanEnd mountedThreeFrames
    <> goToFrame 2 (activeIndex mountedThreeFrames) true mountedThreeFrames.
Proof.
  split; [right; reflexivity|].
  split; [reflexivity|].
  split; [reflexivity|].
  split; vm_compute; discriminate.
Qed.

(** C5, amended: for every pan-end or pan-cancel event that is not ignored
    as a [pointercancel], with delta [d]: if [abs(d)] exceeds
    [frameSize * frameBoundary], the product being the double the code
    computes, the handler calls [prev] when [d > 0] and [next] otherwise,
    else it re-targets the active index with animation; the handler returns
    and leaves the active index as it was.  With frames 300 wide and a
    boundary of 0.25, [abs(d) = 74] snaps back and [abs(d) = 76] commits;
    with frames 360 wide and a boundary of 0.35 the product is
    125.99999999999999 and [abs(d) = 126] commits. *)
Theorem pan_end_commits_or_snaps_back (fuel : nat) (e : HammerInput) (s : Frames) :
  constructed s -> delivered e -> isPanEnd e ->
  let d := deltaOf e s in
  let boundary := (frameSize s * frameBoundary (props s))%float in
  (gtJS (abs d) boundary = true -> gtJS d 0 = true ->
   onEvents (S fuel) e s = prev (S fuel) s) /\
  (gtJS (abs d) boundary = true -> gtJS d 0 = false ->
   onEvents (S fuel) e s = next (S fuel) s) /\
  (gtJS (abs d) boundary = false ->
   onEvents (S fuel) e s = goToFrame (S fuel) (activeIndex s) true s) /\
  (exists s', onEvents (S fuel) e s = Some s' /\
              activeIndex s' = activeIndex s) /\
  (frameSize s = 300%float -> frameBoundary (props s) = 0.25%float ->
   (abs d = 74%float ->
    onEvents (S fuel) e s = goToFrame (S fuel) (activeIndex s) true s) /\
   (abs d = 76%float ->
    onEvents (S fuel) e s = prevOrNext (S fuel) d s)) /\
  (frameSize s = 360%float -> frameBoundary (props s) = 0.35%float ->
   abs d = 126%float ->
   boundary = 125.99999999999999%float /\
   onEvents (S fuel) e s = prevOrNext (S fuel) d s).
Proof.
  intros C D P d boundary.
  pose proof (onEvents_pan_end (S fuel) e s C D P) as E.
  fold d boundary in E.
  assert (Commit : gtJS (abs d) boundary = true ->
                   onEvents (S fuel) e s = prevOrNext (S fuel) d s).
  { intros H; now rewrite E, H. }
  assert (Snap : gtJS (abs d) boundary = false ->
                 onEvents (S fuel) e s = goToFrame (S fuel) (activeIndex s) true s).
  { intros H; now rewrite E, H. }
  split; [|split; [|split; [exact Snap|split; [|split]]]].
  - intros H Hd; rewrite (Commit H); unfold prevOrNext; now rewrite Hd.
  - intros H Hd; rewrite (Commit H); unfold prevOrNext; now rewrite Hd.
  - rewrite E; destruct (gtJS _ _);
      [apply prevOrNext_returns|apply goToFrame_animated_returns].
  - intros Hs Hb; split; intros Hd.
    + apply Snap; subst boundary; rewrite Hs, Hb, Hd; reflexivity.
    + apply Commit; subst boundary; rewrite Hs, Hb, Hd; reflexivity.
  - intros Hs Hb Hd; split.
    + subst boundary; rewrite Hs, Hb; reflexivity.
    + apply Commit; subst boundary; rewrite Hs, Hb, Hd; reflexivity.
Qed.

Lemma pan_end_commits_or_snaps_back_witness :
  constructed mountedThreeFrames /\ delivered panEndLeft76 /\
  isPanEnd panEndLeft76 /\
  onEvents 1 panEndLeft76 mountedThreeFrames = next 1 mountedThreeFrames.
Proof.
  assert (C : constructed mountedThreeFrames)
    by (exists (threeFrames 0); repeat split).
  assert (D : delivered panEndLeft76) by discriminate.
  assert (P : isPanEnd panEndLeft76) by (left; reflexivity).
  split; [exact C|split; [exact D|split; [exact P|]]].
  destruct (pan_end_commits_or_snaps_back 0 panEndLeft76 mountedThreeFrames C D P)
    as (_ & N & _).
  apply N; reflexivity.
Defined.

(** C8, as stated, fails: a pan-move event whose source event is a
    [pointercancel] returns at the guard; its delta of -350 exceeds the frame
    size 300, yet no step is committed and Hammer is not stopped. *)
Lemma pan_past_frame_counterexample :
  isPanMove cancelledPanMove mountedThreeFrames /\
  gtJS (abs (deltaOf cancelledPanMove mountedThreeFrames))
       (frameSize mountedThreeFrames) = true /\
  onEvents 2 cancelledPanMove mountedThreeFrames = Some mountedThreeFrames /\
  onEvents 2 cancelledPanMove mountedThreeFrames
    <> andThen (next 2 mountedThreeFrames) hammerStop.
Proof.
  split; [left; reflexivity|].
  split; [reflexivity|].
  split; [reflexivity|].
  vm_compute; discriminate.
Qed.

(** C8, amended: for every pan-move event that is not ignored as a
    [pointercancel] and whose delta [d] has [abs(d) > frameSize], the handler
    calls [prev] when [d > 0] and [next] otherwise, then stops Hammer, and
    does not reposition the container by the delta; a delta of 350 with
    frames 300 wide commits a step to the previous frame. *)
Theorem pan_past_frame_commits (fuel : nat) (e : HammerInput) (s : Frames) :
  delivered e -> isPanMove e s ->
  let d := deltaOf e s in
  (gtJS (abs d) (frameSize s) = true ->
   exists s1,
     (gtJS d 0 = true -> prev (S fuel) s = Some s1) /\
     (gtJS d 0 = false -> next (S fuel) s = Some s1) /\
     onEvents (S fuel) e s = Some (emit HammerStop s1)) /\
  (frameSize s = 300%float -> d = 350%float ->
   exists s1,
     prev (S fuel) s = Some s1 /\
     onEvents (S fuel) e s = Some (emit HammerStop s1)).
Proof.
  intros D P d.
  pose proof (onEvents_pan_move (S fuel) e s D P) as E.
  cbv zeta in E; fold d in E.
  assert (Past : gtJS (abs d) (frameSize s) = true ->
    exists s1,
      (gtJS d 0 = true -> prev (S fuel) s = Some s1) /\
      (gtJS d 0 = false -> next (S fuel) s = Some s1) /\
      onEvents (S fuel) e s = Some (emit HammerStop s1)).
  { intros H; rewrite E, H.
    destruct (prevOrNext_returns fuel d s) as (s1 & R & _).
    exists s1; rewrite R; unfold prevOrNext in R.
    repeat split; intros Hd; now rewrite Hd in R. }
  split; [exact Past|].
  intros Hs Hd.
  destruct Past as (s1 & Hp & _ & Ho).
  { rewrite Hs, Hd; reflexivity. }
  exists s1; split; [apply Hp; rewrite Hd; reflexivity|exact Ho].
Qed.

Lemma pan_past_frame_commits_witness :
  delivered panRight350 /\ isPanMove panRight350 mountedOnLastFrame /\
  exists s1,
    prev 1 mountedOnLastFrame = Some s1 /\
    onEvents 1 panRight350 mountedOnLastFrame = Some (emit HammerStop s1).
Proof.
  assert (D : delivered panRight350) by discriminate.
  assert (P : isPanMove panRight350 mountedOnLastFrame) by (right; reflexivity).
  split; [exact D|split; [exact P|]].
  destruct (pan_past_frame_commits 0 panRight350 mountedOnLastFrame D P)
    as (_ & X).
  apply X; reflexivity.
Defined.

Lemma isOutOfBounds_spec position s :
  isOutOfBounds position s = true <-> outOfBounds position s.
Proof.
  unfold isOutOfBounds, outOfBounds.
  rewrite orb_true_iff, !andb_true_iff, !Z.eqb_eq.
  reflexivity.
Qed.

(** C9, as stated, fails: a pan-move event whose source event is a
    [pointercancel] returns at the guard; on the first of three frames
    without looping a delta of 50 is within the frame size and past the
    start of the track, yet the container is not positioned at all. *)
Lemma live_drag_counterexample :
  isPanMove cancelledDrag mountedThreeFrames /\
  gtJS (abs (deltaOf cancelledDrag mountedThreeFrames))
       (frameSize mountedThreeFrames) = false /\
  loop (props mountedThreeFrames) = false /\
  outOfBounds
    (offset mountedThreeFrames (activeIndex mountedThreeFrames)
     + deltaOf cancelledDrag mountedThreeFrames) mountedThreeFrames /\
  onEvents 2 cancelledDrag mountedThreeFrames = Some mountedThreeFrames /\
  forall position,
    onEvents 2 cancelledDrag mountedThreeFrames
    <> Some (emit (Translate position)
               (set_transform position mountedThreeFrames)).
Proof.
  split; [right; reflexivity|].
  split; [reflexivity|].
  split; [reflexivity|].
  split; [left; split; reflexivity|].
  split; [reflexivity|].
  intros position H; rewrite onEvents_pointercancel in H by reflexivity.
  apply (f_equal (option_map (fun x => length (effects x)))) in H.
  discriminate H.
Qed.

(** C9, amended: for every pan-move event that is not ignored as a
    [pointercancel] and whose delta [d] does not have [abs(d) > frameSize],
    the container is positioned at the double sum [framePos + d'] and
    nothing else changes, the active index in particular.  [d'] is the double
    product [d * 0.15] (0.44999999999999996 for a delta of 3) when looping is
    off and [framePos + d] is out of bounds ([activeIndex = 0] with a
    position [>= 0], or [activeIndex = last] with a position
    [<= -frameSize * last]); [d'] is [d] at every interior index, whenever
    looping is on, and whenever the position is within bounds. *)
Theorem live_drag_dampening (fuel : nat) (e : HammerInput) (s : Frames) :
  delivered e -> isPanMove e s ->
  let d := deltaOf e s in
  let framePos := offset s (activeIndex s) in
  let last := framesCount s - 1 in
  gtJS (abs d) (frameSize s) = false ->
  exists d',
    onEvents fuel e s
      = Some (emit (Translate (framePos + d'))
                (set_transform (framePos + d') s)) /\
    (forall s', onEvents fuel e s = Some s' -> activeIndex s' = activeIndex s) /\
    (loop (props s) = false -> outOfBounds (framePos + d) s ->
     d' = (d * 0.15)%float) /\
    (loop (props s) = true -> d' = d) /\
    (activeIndex s <> 0 -> activeIndex s <> last -> d' = d) /\
    (~ outOfBounds (framePos + d) s -> d' = d) /\
    (d = 3%float -> (d * 0.15 = 0.44999999999999996)%float).
Proof.
  intros D P d framePos last H.
  pose proof (onEvents_pan_move fuel e s D P) as E.
  cbv zeta in E; fold d framePos in E.
  rewrite H in E.
  unfold moveContainerBy, callDone in E.
  eexists; split; [exact E|].
  split; [intros s' Hs'; rewrite E in Hs'; now injection Hs' as <-|].
  split; [|split; [|split; [|split]]].
  - intros L O; apply isOutOfBounds_spec in O; now rewrite O, L.
  - intros L; rewrite L; cbn [negb]; now rewrite andb_false_r.
  - intros H0 Hl.
    destruct (isOutOfBounds (framePos + d) s) eqn:O; [|reflexivity].
    apply isOutOfBounds_spec in O; unfold outOfBounds in O; fold last in O.
    tauto.
  - intros N.
    destruct (isOutOfBounds (framePos + d) s) eqn:O; [|reflexivity].
    apply isOutOfBounds_spec in O; tauto.
  - intros ->; reflexivity.
Qed.

Lemma live_drag_dampening_witness :
  delivered panRight3 /\ isPanMove panRight3 mountedThreeFrames /\
  gtJS (abs (deltaOf panRight3 mountedThreeFrames))
       (frameSize mountedThreeFrames) = false /\
  exists s',
    onEvents 0 panRight3 mountedThreeFrames = Some s' /\
    activeIndex s' = 0 /\
    transform s' = Some 0.44999999999999996%float.
Proof.
  assert (D : delivered panRight3) by discriminate.
  assert (P : isPanMove panRight3 mountedThreeFrames) by (right; reflexivity).
  assert (H : gtJS (abs (deltaOf panRight3 mountedThreeFrames))
                   (frameSize mountedThreeFrames) = false) by reflexivity.
  split; [exact D|split; [exact P|split; [exact H|]]].
  destruct (live_drag_dampening 0 panRight3 mountedThreeFrames D P H)
    as (d' & E & A & Damp & _).
  rewrite Damp in E;
    [|reflexivity|left; split; reflexivity].
  eexists; split; [exact E|split; reflexivity].
Defined.

(** * Further properties *)

(** ** The padded sequence *)

Lemma nth_preClones n arr :
  forall i acc j,
    nth_error (preClones n arr i acc) j =
    if (j <? n)%nat then Some (item arr (i - Z.of_nat n + 1 + Z.of_nat j))
    else nth_error acc (j - n).
Proof.
  induction n as [|n IH]; intros i acc j; cbn [preClones].
  - now rewrite Nat.sub_0_r.
  - rewrite IH.
    destruct (Nat.ltb_spec j n), (Nat.ltb_spec j (S n)); try lia.
    + do 2 f_equal; lia.
    + replace (j - n)%nat with 0%nat by lia; simpl; do 2 f_equal; lia.
    + replace (j - n)%nat with (S (j - S n)) by lia; reflexivity.
Qed.

Lemma nth_postClones n arr :
  forall i acc j,
    nth_error (postClones n arr i acc) j =
    if (j <? length acc)%nat then nth_error acc j
    else if (j <? length acc + n)%nat
         then Some (item arr (i + Z.of_nat (j - length acc)))
         else None.
Proof.
  induction n as [|n IH]; intros i acc j; cbn [postClones].
  - rewrite Nat.add_0_r; destruct (Nat.ltb_spec j (length acc)); [reflexivity|].
    now apply nth_error_None.
  - rewrite IH, length_app; cbn [length].
    destruct (Nat.ltb_spec j (length acc)).
    + replace (j <? length acc + 1)%nat with true
        by (symmetry; apply Nat.ltb_lt; lia).
      now apply nth_error_app1.
    + destruct (Nat.ltb_spec j (length acc + 1)).
      * replace j with (length acc) by lia.
        rewrite nth_error_app2, Nat.sub_diag by lia.
        replace (length acc <? length acc + S n)%nat with true
          by (symmetry; apply Nat.ltb_lt; lia).
        cbn [nth_error]; do 2 f_equal; lia.
      * destruct (Nat.ltb_spec j (length acc + 1 + n)),
                 (Nat.ltb_spec j (length acc + S n)); try lia; [|reflexivity].
        do 2 f_equal; lia.
Qed.

Lemma item_defined arr i :
  0 <= i < Z.of_nat (length arr) ->
  item arr i = nth_error arr (Z.to_nat i) /\ item arr i <> None.
Proof.
  intros H; unfold item.
  replace (i <? 0) with false by (symmetry; apply Z.ltb_ge; lia).
  split; [reflexivity|apply nth_error_Some; lia].
Qed.


(** Slot [j] of the padded array is filled from [childrenArr[slotChild j]]. *)
Lemma getChildren_slot kids c l j :
  getChildren kids c = Some l -> 0 <= c -> 0 <= j < Z.of_nat (length l) ->
  nth_error l (Z.to_nat j)
  = Some (item (toArray kids)
            (slotChild (Z.of_nat (length (toArray kids))) c j)).
Proof.
  intros G Hc Hj.
  pose proof (length_getChildren kids c l G) as Hl.
  set (arr := toArray kids) in *; set (n := Z.of_nat (length arr)) in *.
  unfold getChildren in G; fold arr n in G.
  destruct (n =? 0); [discriminate|].
  unfold slotChild.
  destruct (Z.eqb_spec c 0) as [->|Hc0]; injection G as <-.
  - rewrite length_map in Hj; fold n in Hj.
    replace (j <? 0) with false by (symmetry; apply Z.ltb_ge; lia).
    replace (j <? 0 + n) with true by (symmetry; apply Z.ltb_lt; lia).
    rewrite Z.sub_0_r, nth_error_map.
    destruct (item_defined arr j) as [-> Hd]; [subst n; lia|].
    destruct (nth_error arr (Z.to_nat j)); [reflexivity|now elim Hd].
  - rewrite nth_postClones, length_preClones, nth_preClones, length_map.
    fold n.
    destruct (Z.ltb_spec j c).
    + replace (Z.to_nat j <? Z.to_nat c + length arr)%nat with true
        by (symmetry; apply Nat.ltb_lt; lia).
      replace (Z.to_nat j <? Z.to_nat c)%nat with true
        by (symmetry; apply Nat.ltb_lt; lia).
      do 2 f_equal; subst n; lia.
    + destruct (Z.ltb_spec j (c + n)).
      * replace (Z.to_nat j <? Z.to_nat c + length arr)%nat with true
          by (symmetry; apply Nat.ltb_lt; subst n; lia).
        replace (Z.to_nat j <? Z.to_nat c)%nat with false
          by (symmetry; apply Nat.ltb_ge; lia).
        rewrite nth_error_map.
        destruct (item_defined arr (j - c)) as [E Hd]; [subst n; lia|].
        rewrite E in *.
        replace (Z.to_nat j - Z.to_nat c)%nat with (Z.to_nat (j - c)) by lia.
        destruct (nth_error arr (Z.to_nat (j - c))); [reflexivity|now elim Hd].
      * replace (Z.to_nat j <? Z.to_nat c + length arr)%nat with false
          by (symmetry; apply Nat.ltb_ge; subst n; lia).
        replace (Z.to_nat j <? Z.to_nat c + length arr + Z.to_nat c)%nat
          with true by (symmetry; apply Nat.ltb_lt; subst n; lia).
        do 2 f_equal; subst n; lia.
Qed.

Lemma framesCount_padding s :
  rendered s -> 0 <= padding s ->
  framesCount s =
    (if realCount s =? 0 then 0 else realCount s + 2 * padding s).
Proof.
  intros R Hp.
  destruct (Z.eqb_spec (realCount s) 0) as [E|E].
  - unfold rendered, render in R; unfold framesCount; rewrite R.
    assert (K : toArray (children (props s)) = []).
    { unfold realCount in E; destruct (toArray (children (props s)));
        [reflexivity|simpl in E; lia]. }
    now rewrite (proj2 (getChildren_none _ _) K).
  - assert (Hne : framesCount s <> 0).
    { unfold rendered, render in R; unfold framesCount; rewrite R.
      destruct (getChildren _ _) as [l|] eqn:G.
      - apply length_getChildren in G.
        unfold realCount, padding in *; lia.
      - apply getChildren_none in G; unfold realCount in E.
        rewrite G in E; now elim E. }
    destruct (framesCount_rendered s R Hne) as [H _].
    fold (padding s) (realCount s) in H; lia.
Qed.

(** The slot of a rendered component. *)
Lemma rendered_slot s j :
  rendered s -> 0 <= padding s -> 0 <= j < framesCount s ->
  nth_error (frames s) (Z.to_nat j)
  = Some (item (toArray (children (props s)))
            (slotChild (realCount s) (padding s) j)).
Proof.
  intros R Hp Hj.
  unfold rendered, render in R; fold (padding s) in R.
  destruct (getChildren (children (props s)) (padding s)) as [l|] eqn:G.
  2:{ unfold framesCount in Hj; rewrite R in Hj; simpl in Hj; lia. }
  rewrite R; apply getChildren_slot; try assumption.
  unfold framesCount in Hj; now rewrite R in Hj.
Qed.




(** ** Where a move settles *)

Lemma landsOnClone_closure s index :
  landsOnClone (closure s index) s = true <->
  loop (props s) = true /\
  (index < getClonesCount (props s)
   \/ index > (framesCount s - 1) - getClonesCount (props s)).
Proof.
  unfold landsOnClone, closure; fields.
  rewrite andb_true_iff, orb_true_iff, Z.ltb_lt, Z.gtb_ltb, Z.ltb_lt.
  intuition lia.
Qed.

Lemma settlesOn_real s index :
  rendered s -> accepts s index -> realTarget s (settlesOn s index).
Proof.
  intros R Hacc; unfold settlesOn.
  destruct (landsOnClone (closure s index) s) eqn:C.
  - apply landsOnClone_closure in C as [L Hoff].
    destruct (clone_bounds s index R Hacc L Hoff) as (Hf & Hl & Hfl).
    destruct Hacc as [Hne _].
    destruct (activeIndex s <=? index); (split; [split; assumption|]);
      intros _; lia.
  - split; [assumption|].
    exact (proj1 (landsOnClone_false (closure s index) s) C).
Qed.

Lemma settle_stable fuel index animate s s' :
  settle fuel index animate s = Some s' -> stable s s'.
Proof.
  unfold settle, settleAt; destruct animate; [|apply goToFrame_stable].
  destruct (goToFrame fuel index true s) as [s1|] eqn:E; cbn [andThen];
    [|discriminate].
  intros T; apply goToFrame_stable in E; apply timeout_stable in T.
  eauto using stable_trans.
Qed.

(** An accepted move, once completed, has settled on a real frame, written
    its offset, reported its public index once, and left nothing pending. *)
Lemma settle_reports fuel index animate s :
  rendered s -> accepts s index ->
  exists s',
    settle (S (S fuel)) index animate s = Some s' /\
    activeIndex s' = settlesOn s index /\
    timers s' = timers s /\
    transform s' = Some (offset s (settlesOn s index)) /\
    frameUpdates (effects s') =
      frameUpdates (effects s)
      ++ (if onFrameUpdate (props s)
          then [toPublic (loop (props s)) (getClonesCount (props s))
                  (settlesOn s index)]
          else []) /\
    stable s s' /\
    realTarget s (settlesOn s index).
Proof.
  intros R Hacc.
  destruct (settle_result fuel index animate s R Hacc)
    as (s' & D & A & T & X & E).
  exists s'; split; [exact D|].
  split; [exact A|]; split; [exact T|]; split; [exact X|].
  split; [|split; [eapply settle_stable; exact D|now apply settlesOn_real]].
  rewrite E, !frameUpdates_app; fold (settlesOn s index).
  destruct (landsOnClone _ _), (onFrameUpdate (props s)); reflexivity.
Qed.

(** ** Stepping round the loop *)

Lemma loop_geometry s :
  rendered s -> loop (props s) = true -> 0 <= getClonesCount (props s) ->
  framesCount s <> 0 ->
  framesCount s = realCount s + 2 * getClonesCount (props s) /\
  0 < realCount s /\
  padding s = getClonesCount (props s).
Proof.
  intros R L Hc Hne.
  assert (P : padding s = getClonesCount (props s))
    by (unfold padding; now rewrite L).
  pose proof (framesCount_padding s R) as Hf.
  rewrite P in Hf; specialize (Hf Hc).
  destruct (Z.eqb_spec (realCount s) 0); [lia|].
  unfold realCount in *; lia.
Qed.

(** Two slots filled from the same place of the children array hold the
    same node. *)
Lemma same_slot s j k :
  rendered s -> 0 <= padding s ->
  0 <= j < framesCount s -> 0 <= k < framesCount s ->
  slotChild (realCount s) (padding s) j = slotChild (realCount s) (padding s) k ->
  nth_error (frames s) (Z.to_nat j) = nth_error (frames s) (Z.to_nat k).
Proof.
  intros R Hp Hj Hk E.
  now rewrite (rendered_slot s j R Hp Hj), (rendered_slot s k R Hp Hk), E.
Qed.

(** X2: in loop mode with at least one clone, [next()] run to completion
    from a real frame settles on the real frame of the next public index
    modulo the number of children: from the last child it wraps to the
    first.  The public index is reported once, the container rests on the
    new frame, and the slot the animation slid to shows the same child as
    the slot the carousel settles on. *)
Theorem next_cycles (fuel : nat) (s : Frames) :
  rendered s -> loop (props s) = true -> 1 <= getClonesCount (props s) ->
  realTarget s (activeIndex s) ->
  let c := getClonesCount (props s) in
  let p := activeIndex s - c in
  exists s',
    stepAndSettle (S (S fuel)) true s = Some s' /\
    activeIndex s' = c + (p + 1) mod realCount s /\
    timers s' = timers s /\
    transform s' = Some (offset s (activeIndex s')) /\
    frameUpdates (effects s') =
      frameUpdates (effects s)
      ++ (if onFrameUpdate (props s) then [(p + 1) mod realCount s] else []) /\
    nth_error (frames s) (Z.to_nat (activeIndex s + 1))
    = nth_error (frames s) (Z.to_nat (activeIndex s')).
Proof.
  intros R L Hc [Hacc Hreal] c p; specialize (Hreal L); fold c in Hreal, Hc.
  destruct (loop_geometry s R L) as (Hf & Hn & Hp);
    [lia|apply Hacc|]; fold c in Hf, Hp.
  assert (N : getNextIndex true s = activeIndex s + 1)
    by (unfold getNextIndex; lia).
  assert (A1 : accepts s (activeIndex s + 1))
    by (split; [apply Hacc|lia]).
  assert (S1 : settlesOn s (activeIndex s + 1) = c + (p + 1) mod realCount s).
  { unfold settlesOn.
    destruct (landsOnClone (closure s (activeIndex s + 1)) s) eqn:C.
    - apply landsOnClone_closure in C as [_ C]; fold c in C.
      replace (activeIndex s <=? activeIndex s + 1) with true
        by (symmetry; apply Z.leb_le; lia).
      replace (p + 1) with (realCount s) by (subst p; lia).
      rewrite Z.mod_same by lia; fold c; lia.
    - pose proof (proj1 (landsOnClone_false _ _) C L) as C'.
      unfold closure in C'; fields; fold c in C'.
      rewrite Z.mod_small by (subst p; lia); subst p; lia. }
  unfold stepAndSettle, next; rewrite N.
  change (andThen _ _) with (settle (S (S fuel)) (activeIndex s + 1) true s).
  destruct (settle_reports fuel (activeIndex s + 1) true s R A1)
    as (s' & D & A & T & X & E & _ & _).
  rewrite S1 in A, X, E.
  exists s'; split; [exact D|]; split; [exact A|]; split; [exact T|].
  split; [now rewrite A|].
  split.
  - rewrite E; unfold toPublic; rewrite L.
    replace (c + (p + 1) mod realCount s - getClonesCount (props s))
      with ((p + 1) mod realCount s) by (fold c; lia).
    reflexivity.
  - rewrite A.
    assert (0 <= (p + 1) mod realCount s < realCount s)
      by (apply Z.mod_pos_bound; lia).
    apply same_slot; try assumption; try lia.
    rewrite Hp; unfold slotChild.
    destruct (Z.eq_dec (p + 1) (realCount s)) as [Q|Q].
    + rewrite Q, Z.mod_same, Z.add_0_r by lia.
      replace (activeIndex s + 1 <? c) with false
        by (symmetry; apply Z.ltb_ge; lia).
      replace (activeIndex s + 1 <? c + realCount s) with false
        by (symmetry; apply Z.ltb_ge; subst p; lia).
      replace (c <? c) with false by (symmetry; apply Z.ltb_ge; lia).
      replace (c <? c + realCount s) with true
        by (symmetry; apply Z.ltb_lt; lia).
      subst p; lia.
    + rewrite Z.mod_small by (subst p; lia).
      replace (c + (p + 1)) with (activeIndex s + 1) by (subst p; lia).
      reflexivity.
Qed.

(** X3: in loop mode with at least one clone, [prev()] run to completion
    from a real frame settles on the real frame of the previous public index
    modulo the number of children: from the first child it wraps to the
    last, and the slot the animation slid to shows the same child as the slot
    the carousel settles on. *)
Theorem prev_cycles (fuel : nat) (s : Frames) :
  rendered s -> loop (props s) = true -> 1 <= getClonesCount (props s) ->
  realTarget s (activeIndex s) ->
  let c := getClonesCount (props s) in
  let p := activeIndex s - c in
  exists s',
    stepAndSettle (S (S fuel)) false s = Some s' /\
    activeIndex s' = c + (p - 1) mod realCount s /\
    timers s' = timers s /\
    transform s' = Some (offset s (activeIndex s')) /\
    frameUpdates (effects s') =
      frameUpdates (effects s)
      ++ (if onFrameUpdate (props s) then [(p - 1) mod realCount s] else []) /\
    nth_error (frames s) (Z.to_nat (activeIndex s - 1))
    = nth_error (frames s) (Z.to_nat (activeIndex s')).
Proof.
  intros R L Hc [Hacc Hreal] c p; specialize (Hreal L); fold c in Hreal, Hc.
  destruct (loop_geometry s R L) as (Hf & Hn & Hp);
    [lia|apply Hacc|]; fold c in Hf, Hp.
  assert (N : getNextIndex false s = activeIndex s - 1)
    by (unfold getNextIndex; lia).
  assert (A1 : accepts s (activeIndex s - 1))
    by (split; [apply Hacc|lia]).
  assert (S1 : settlesOn s (activeIndex s - 1) = c + (p - 1) mod realCount s).
  { unfold settlesOn.
    destruct (landsOnClone (closure s (activeIndex s - 1)) s) eqn:C.
    - apply landsOnClone_closure in C as [_ C]; fold c in C.
      replace (activeIndex s <=? activeIndex s - 1) with false
        by (symmetry; apply Z.leb_gt; lia).
      replace (p - 1) with ((realCount s - 1) + (-1) * realCount s)
        by (subst p; lia).
      rewrite Z.mod_add, Z.mod_small by lia; fold c; lia.
    - pose proof (proj1 (landsOnClone_false _ _) C L) as C'.
      unfold closure in C'; fields; fold c in C'.
      rewrite Z.mod_small by (subst p; lia); subst p; lia. }
  unfold stepAndSettle, prev; rewrite N.
  change (andThen _ _) with (settle (S (S fuel)) (activeIndex s - 1) true s).
  destruct (settle_reports fuel (activeIndex s - 1) true s R A1)
    as (s' & D & A & T & X & E & _ & _).
  rewrite S1 in A, X, E.
  exists s'; split; [exact D|]; split; [exact A|]; split; [exact T|].
  split; [now rewrite A|].
  split.
  - rewrite E; unfold toPublic; rewrite L.
    replace (c + (p - 1) mod realCount s - getClonesCount (props s))
      with ((p - 1) mod realCount s) by (fold c; lia).
    reflexivity.
  - rewrite A.
    assert (0 <= (p - 1) mod realCount s < realCount s)
      by (apply Z.mod_pos_bound; lia).
    apply same_slot; try assumption; try lia.
    rewrite Hp; unfold slotChild.
    destruct (Z.eq_dec p 0) as [Q|Q].
    + replace ((p - 1) mod realCount s) with (realCount s - 1).
      2:{ replace (p - 1) with ((realCount s - 1) + (-1) * realCount s) by lia.
          rewrite Z.mod_add, Z.mod_small; lia. }
      replace (activeIndex s - 1 <? c) with true
        by (symmetry; apply Z.ltb_lt; subst p; lia).
      replace (c + (realCount s - 1) <? c) with false
        by (symmetry; apply Z.ltb_ge; lia).
      replace (c + (realCount s - 1) <? c + realCount s) with true
        by (symmetry; apply Z.ltb_lt; lia).
      subst p; lia.
    + rewrite Z.mod_small by (subst p; lia).
      replace (c + (p - 1)) with (activeIndex s - 1) by (subst p; lia).
      reflexivity.
Qed.

(** ** The event loop keeps the component consistent *)

Lemma stable_framesCount s s' : stable s s' -> framesCount s' = framesCount s.
Proof. intros (_ & F & _); unfold framesCount; now rewrite F. Qed.

Lemma stable_realTarget s s' index :
  stable s s' -> realTarget s index -> realTarget s' index.
Proof.
  intros St; pose proof (stable_framesCount s s' St) as F.
  destruct St as (P & _).
  unfold realTarget, accepts; rewrite F, P; tauto.
Qed.

Lemma stable_pendingOk s s' cb :
  stable s s' -> pendingOk s cb -> pendingOk s' cb.
Proof.
  intros St; pose proof (stable_framesCount s s' St) as F.
  destruct St as (P & _).
  destruct cb as [t|]; [|trivial].
  unfold pendingOk, closure, accepts; rewrite F, P; tauto.
Qed.

Lemma stable_reportable s s' i :
  stable s s' -> reportable s i -> reportable s' i.
Proof.
  intros St (index & Hr & ->); exists index.
  split; [eapply stable_realTarget; eassumption|].
  destruct St as (P & _); now rewrite P.
Qed.

(** Building a consistent state from one that is, given what changed. *)
Lemma consistent_after s s' :
  consistent s -> stable s s' ->
  realTarget s (activeIndex s') ->
  Forall (pendingOk s) (timers s') ->
  Forall (reportable s) (frameUpdates (effects s')) ->
  consistent s'.
Proof.
  intros (R & _) St Ha Ht Hl.
  split; [eapply stable_rendered; eassumption|].
  split; [eapply stable_realTarget; eassumption|].
  split; (eapply Forall_impl; [|eassumption]); intros x;
    [apply stable_pendingOk|apply stable_reportable]; assumption.
Qed.

Lemma consistent_goToFrame fuel index animate s :
  consistent s ->
  exists s', goToFrame (S (S fuel)) index animate s = Some s' /\ consistent s'.
Proof.
  intros C; pose proof C as (R & Ha & Ht & Hl).
  destruct ((framesCount s =? 0) || (index <? 0) || (index >? framesCount s)) eqn:G.
  { apply guard_rejects in G; rewrite goToFrame_rejected by assumption.
    now exists s. }
  apply guard_accepts in G.
  destruct animate.
  - pose proof (goToFrame_animated (S fuel) index s G) as E.
    eexists; split; [exact E|].
    apply (consistent_after s); try assumption.
    + apply (goToFrame_stable _ _ _ _ _ E).
    + fields; apply Forall_app; split; [assumption|].
      constructor; [|constructor]; split; [reflexivity|exact G].
    + fields; rewrite frameUpdates_app; cbn [frameUpdates].
      now rewrite app_nil_r.
  - destruct (settle_reports fuel index false s R G)
      as (s' & D & A & T & _ & E & St & Hr).
    exists s'; split; [exact D|].
    apply (consistent_after s); try assumption.
    + now rewrite A.
    + now rewrite T.
    + rewrite E; apply Forall_app; split; [assumption|].
      destruct (onFrameUpdate (props s)); constructor; [|constructor].
      now exists (settlesOn s index).
Qed.

Lemma consistent_timeout fuel k s :
  consistent s ->
  exists s', timeout (S (S fuel)) k s = Some s' /\ consistent s'.
Proof.
  intros C; pose proof C as (R & Ha & Ht & Hl); unfold timeout.
  destruct (nth_error (timers s) k) as [cb|] eqn:E; [|now exists s].
  assert (Hcb : pendingOk s cb).
  { rewrite Forall_forall in Ht; apply Ht; eapply nth_error_In; eassumption. }
  set (s1 := set_moving false _).
  assert (St1 : stable s s1)
    by (subst s1; eauto using stable_trans with frames).
  assert (C1 : consistent s1).
  { apply (consistent_after s); try assumption.
    subst s1; fields; now apply Forall_drop_nth. }
  destruct cb as [t|]; cbn [callDone]; [|now exists s1].
  destruct Hcb as [Hc Hacc].
  assert (Hc1 : t = closure s1 (tIndex t)) by exact Hc.
  destruct C1 as (R1 & Ha1 & Ht1 & Hl1).
  destruct (done_settles (S fuel) t s1) as (s' & D & A & T & _ & _ & Ef);
    try assumption; try (rewrite Hc1; reflexivity).
  exists s'; split; [exact D|].
  assert (Hs : (if landsOnClone t s1
                then if activeIndex s1 <=? tIndex t
                     then getClonesCount (props s1)
                     else framesCount s1 - 1 - getClonesCount (props s1)
                else tIndex t) = settlesOn s1 (tIndex t))
    by (unfold settlesOn; now rewrite <- Hc1).
  rewrite Hs in A, Ef.
  pose proof (settlesOn_real s1 (tIndex t) R1 Hacc) as Hr.
  apply (consistent_after s1).
  - exact (conj R1 (conj Ha1 (conj Ht1 Hl1))).
  - apply (done_stable (goToFrame (S (S fuel)))) with (t := t);
      [apply goToFrame_stable|exact D].
  - now rewrite A.
  - now rewrite T.
  - rewrite Ef, !frameUpdates_app; apply Forall_app; split; [assumption|].
    replace (frameUpdates (if landsOnClone t s1 then _ else _)) with (@nil Z)
      by (destruct (landsOnClone t s1); reflexivity).
    cbn [app].
    destruct (onFrameUpdate (props s1)); cbn [frameUpdates];
      constructor; [|constructor].
    now exists (settlesOn s1 (tIndex t)).
Qed.

Lemma consistent_emit_quiet e s :
  consistent s -> frameUpdates [e] = [] -> consistent (emit e s).
Proof.
  intros C Q; pose proof C as (R & Ha & Ht & Hl).
  apply (consistent_after s); try assumption; [auto with frames|].
  fields; rewrite frameUpdates_app, Q; now rewrite app_nil_r.
Qed.

Lemma consistent_onEvents fuel e s :
  consistent s ->
  exists s', onEvents (S (S fuel)) e s = Some s' /\ consistent s'.
Proof.
  intros C; unfold onEvents.
  assert (Commit : forall d, exists s',
    andThen (prevOrNext (S (S fuel)) d s) hammerStop = Some s' /\ consistent s').
  { intros d; unfold prevOrNext, prev, next.
    destruct (gtJS d 0);
      match goal with |- context [goToFrame _ ?i true s] =>
        destruct (consistent_goToFrame fuel i true s C) as (s1 & -> & C1)
      end; cbn [andThen hammerStop];
      (eexists; split; [reflexivity|now apply consistent_emit_quiet]). }
  destruct (String.eqb (srcEventType e) _); [now exists s|].
  destruct (_ || _).
  { destruct (gtJS _ _); [apply Commit|].
    unfold moveContainerBy, callDone.
    eexists; split; [reflexivity|].
    apply consistent_emit_quiet; [|reflexivity].
    pose proof C as (R & Ha & Ht & Hl).
    apply (consistent_after s); try assumption; auto with frames. }
  destruct (_ || _); [apply Commit|].
  destruct (_ || _); [|now exists s].
  destruct (gtJS _ _); [|apply consistent_goToFrame; assumption].
  unfold prevOrNext, prev, next; destruct (gtJS _ _);
    apply consistent_goToFrame; assumption.
Qed.

Lemma consistent_init fuel measured s :
  consistent s ->
  exists s', init (S (S fuel)) measured s = Some s' /\ consistent s'.
Proof.
  intros C; pose proof C as (R & Ha & Ht & Hl).
  unfold init, setSizes; rewrite <- R.
  apply consistent_goToFrame.
  exact (conj R (conj Ha (conj Ht Hl))).
Qed.

Lemma consistent_step fuel ev s :
  consistent s ->
  exists s', step (S (S fuel)) ev s = Some s' /\ consistent s'.
Proof.
  intros C; destruct ev; cbn [step].
  - apply consistent_goToFrame; assumption.
  - apply consistent_goToFrame; assumption.
  - apply consistent_goToFrame; assumption.
  - apply consistent_init; assumption.
  - apply consistent_onEvents; assumption.
  - apply consistent_timeout; assumption.
Qed.

Lemma consistent_step_keeps fuel ev s s' :
  consistent s -> step fuel ev s = Some s' ->
  props s' = props s /\ frames s' = frames s.
Proof.
  intros (R & _) H.
  assert (St : forall x, stable s x -> props x = props s /\ frames x = frames s)
    by (intros x (P & F & _); now split).
  destruct ev; cbn [step] in H.
  - apply St, (goToFrame_stable _ _ _ _ _ H).
  - apply St, (goToFrame_stable _ _ _ _ _ H).
  - apply St, (goToFrame_stable _ _ _ _ _ H).
  - unfold init in H; apply goToFrame_stable in H.
    destruct H as (P & F & _); fields; split; [exact P|].
    rewrite F; symmetry; exact R.
  - apply St, (onEvents_stable _ _ _ _ H).
  - apply St, (timeout_stable _ _ _ _ H).
Qed.

Lemma consistent_run fuel evs :
  forall s, consistent s ->
  exists s', run (S (S fuel)) evs s = Some s' /\ consistent s' /\
             props s' = props s /\ frames s' = frames s.
Proof.
  induction evs as [|ev evs IH]; intros s C; cbn [run].
  - exists s; auto.
  - destruct (consistent_step fuel ev s C) as (s1 & E & C1).
    destruct (consistent_step_keeps _ _ _ _ C E) as [P1 F1].
    rewrite E; cbn [andThen].
    destruct (IH s1 C1) as (s' & Rn & C' & P & F).
    exists s'; split; [exact Rn|split; [exact C'|split; congruence]].
Qed.

Lemma reportable_range s i :
  rendered s -> 0 <= padding s -> reportable s i ->
  0 <= i <= (if loop (props s) then realCount s - 1 else realCount s).
Proof.
  intros R Hp (index & [[Hne Hi] Hreal] & ->).
  pose proof (framesCount_padding s R Hp) as Hf.
  destruct (Z.eqb_spec (realCount s) 0); [lia|].
  unfold padding, toPublic in *.
  destruct (loop (props s)); [specialize (Hreal eq_refl)|]; lia.
Qed.

(** X4: from a consistent state (which a mount on an accepted start frame
    yields) every sequence of API calls, gestures, re-initialisations and
    timer expiries returns, whatever their order, and leaves a consistent
    state with the same props and frames: the active index is always one
    [goToFrame] accepts, and in loop mode never the index of a clone. *)
Theorem event_loop_keeps_consistent (fuel : nat) (evs : list Event) (s : Frames) :
  consistent s ->
  exists s',
    run (S (S fuel)) evs s = Some s' /\
    consistent s' /\
    props s' = props s /\ frames s' = frames s /\
    0 <= activeIndex s' <= framesCount s /\
    (loop (props s) = true ->
     getClonesCount (props s) <= activeIndex s'
     <= (framesCount s - 1) - getClonesCount (props s)).
Proof.
  intros C.
  destruct (consistent_run fuel evs s C) as (s' & Rn & C' & P & F).
  exists s'; do 4 (split; [assumption|]).
  destruct C' as (_ & [[_ Ha] Hr] & _).
  unfold framesCount in *; rewrite F, P in *; split; assumption.
Qed.

(** X5: from a consistent state with a non-negative clones count, every
    index ever passed to [onFrameUpdate], after any sequence of events, is
    the index of a child in loop mode ([0 .. n-1]); without looping it can
    also be [n], one past the last child. *)
Theorem reported_indices_in_range (fuel : nat) (evs : list Event) (s : Frames) :
  consistent s -> 0 <= padding s ->
  exists s',
    run (S (S fuel)) evs s = Some s' /\
    Forall (fun i => 0 <= i <= (if loop (props s) then realCount s - 1
                                else realCount s))
      (frameUpdates (effects s')).
Proof.
  intros C Hp.
  destruct (consistent_run fuel evs s C) as (s' & Rn & C' & P & F).
  exists s'; split; [exact Rn|].
  destruct C' as (R' & _ & _ & Hl).
  assert (Hp' : 0 <= padding s') by (unfold padding in *; now rewrite P).
  eapply Forall_impl; [|exact Hl].
  intros i Hi; pose proof (reportable_range s' i R' Hp' Hi) as H.
  unfold realCount in *; now rewrite P in H.
Qed.

(** X6: mounting a component that has children (other than empty nodes), a
    non-negative clones count and a start frame within [0 .. frames.length]
    returns a consistent state.
    Without looping the active index is the start frame; in loop mode the
    start frame is read as an internal index, and one that lies on a clone,
    before or after the real frames, is replaced by the first real frame.
    The frame size is the measured one, the container rests on the active
    frame, no timer is pending and the public index is reported once. *)
Theorem mount_settles (fuel : nat) (p : IProps) (measured : float) :
  let n := Z.of_nat (length (toArray (children p))) in
  let c := getClonesCount p in
  let pad := if loop p then c else 0 in
  toArray (children p) <> [] -> 0 <= pad ->
  0 <= startFrame p <= n + 2 * pad ->
  exists s,
    mounted (S (S fuel)) p measured = Some s /\
    consistent s /\
    props s = p /\
    activeIndex s =
      (if loop p && ((startFrame p <? c) || (startFrame p >? n + c - 1))
       then c else startFrame p) /\
    frameSize s = measured /\
    transform s = Some (- numberOfZ (activeIndex s) * measured)%float /\
    timers s = [] /\
    frameUpdates (effects s) =
      (if onFrameUpdate p then [toPublic (loop p) c (activeIndex s)] else []).
Proof.
  intros n c pad Hk Hpad Hsf.
  unfold mounted, componentDidMount, init, setSizes.
  set (s0 := set_frameSize measured (set_frames (render _) (constructor p))).
  assert (R0 : rendered s0) by reflexivity.
  assert (Hn : realCount s0 <> 0).
  { change (realCount s0) with n; subst n.
    destruct (toArray (children p)); [now elim Hk|simpl; lia]. }
  pose proof (framesCount_padding s0 R0 Hpad) as Hf.
  destruct (Z.eqb_spec (realCount s0) 0); [contradiction|].
  change (padding s0) with pad in Hf; change (realCount s0) with n in Hf.
  assert (A0 : accepts s0 (startFrame p)).
  { split; [change (realCount s0) with n in Hn; lia|].
    change (activeIndex s0) with (startFrame p); lia. }
  change (activeIndex s0) with (startFrame p).
  destruct (settle_reports fuel (startFrame p) false s0 R0 A0)
    as (s & D & A & T & X & E & St & Hr).
  assert (S0 : settlesOn s0 (startFrame p) =
               (if loop p && ((startFrame p <? c) || (startFrame p >? n + c - 1))
                then c else startFrame p)).
  { unfold settlesOn, landsOnClone, closure; fields.
    change (getClonesCount (props s0)) with c; change (props s0) with p.
    change (activeIndex s0) with (startFrame p).
    rewrite Z.leb_refl, Hf; subst pad.
    destruct (loop p); [|reflexivity].
    replace (n + 2 * c - 1 - c) with (n + c - 1) by lia; reflexivity. }
  exists s; split; [exact D|].
  pose proof St as (P & _ & Z & _).
  split; [|split; [exact P|split; [now rewrite A|split; [exact Z|split;
    [|split; [exact T|]]]]]].
  - split; [exact (stable_rendered _ _ St R0)|].
    split; [rewrite A; exact (stable_realTarget _ _ _ St Hr)|].
    split; [rewrite T; constructor|].
    rewrite E; cbn [effects constructor set_frames set_frameSize s0 frameUpdates app].
    destruct (onFrameUpdate (props s0)); constructor; [|constructor].
    apply (stable_reportable s0 s _ St); now exists (settlesOn s0 (startFrame p)).
  - rewrite X, A; reflexivity.
  - rewrite E, A; reflexivity.
Qed.

(** X7: [init], and so [recalculate] and a window resize, run on a consistent
    state keeps the active index, stores the newly measured frame size,
    moves the container to the active frame at the new size without
    animation, leaves the pending timers as they are and reports the
    unchanged public index once more. *)
Theorem recalculate_keeps_active_frame (fuel : nat) (measured : float)
    (s : Frames) :
  consistent s ->
  exists s',
    recalculate (S (S fuel)) measured s = Some s' /\
    consistent s' /\
    activeIndex s' = activeIndex s /\
    frameSize s' = measured /\
    transform s' = Some (- numberOfZ (activeIndex s) * measured)%float /\
    timers s' = timers s /\
    frameUpdates (effects s') =
      frameUpdates (effects s)
      ++ (if onFrameUpdate (props s)
          then [toPublic (loop (props s)) (getClonesCount (props s))
                  (activeIndex s)]
          else []).
Proof.
  intros C; pose proof C as (R & Ha & Ht & Hl).
  destruct (consistent_init fuel measured s C) as (s' & D & C').
  exists s'; split; [exact D|split; [exact C'|]].
  unfold init, setSizes in D; rewrite <- R in D.
  set (s0 := set_frameSize measured (set_frames (frames s) s)) in D.
  assert (R0 : rendered s0) by exact R.
  assert (A0 : accepts s0 (activeIndex s)) by apply Ha.
  destruct (settle_reports fuel (activeIndex s) false s0 R0 A0)
    as (x & Dx & A & T & X & E & St & _).
  change (settle (S (S fuel)) (activeIndex s) false s0)
    with (goToFrame (S (S fuel)) (activeIndex s0) false s0) in Dx.
  rewrite D in Dx; injection Dx as <-.
  assert (S0 : settlesOn s0 (activeIndex s) = activeIndex s).
  { unfold settlesOn.
    replace (landsOnClone (closure s0 (activeIndex s)) s0) with false;
      [reflexivity|].
    symmetry; apply landsOnClone_false; apply Ha. }
  rewrite S0 in A, X, E.
  destruct St as (_ & _ & Z & _).
  repeat split; assumption.
Qed.

(** ** Direct moves *)

(** X8: when the clones count handed to [getChildren] is not negative, [goTo] of
    the index [i] of a rendered child (a child that is not an empty node,
    counted in [Children.toArray] order) settles on that child: the active
    index is the compensated one, the container rests on it, the slot shows
    the child asked for, and the index reported is the one passed in. *)
Theorem goTo_settles_on_child (fuel : nat) (s : Frames) (i : Z) :
  rendered s -> 0 <= padding s -> 0 <= i < realCount s ->
  exists s',
    goToAndSettle (S (S fuel)) i s = Some s' /\
    activeIndex s' = i + padding s /\
    timers s' = timers s /\
    transform s' = Some (offset s (i + padding s)) /\
    frameUpdates (effects s') =
      frameUpdates (effects s) ++ (if onFrameUpdate (props s) then [i] else []) /\
    nth_error (frames s) (Z.to_nat (activeIndex s'))
    = option_map Some (nth_error (toArray (children (props s))) (Z.to_nat i)).
Proof.
  intros R Hp Hi.
  pose proof (framesCount_padding s R Hp) as Hf.
  destruct (Z.eqb_spec (realCount s) 0); [lia|].
  assert (I : internal s i = i + padding s).
  { unfold internal, toInternal, padding; destruct (loop (props s)); lia. }
  assert (A1 : accepts s (i + padding s)) by (split; lia).
  assert (S1 : settlesOn s (i + padding s) = i + padding s).
  { unfold settlesOn.
    replace (landsOnClone (closure s (i + padding s)) s) with false;
      [reflexivity|].
    symmetry; apply landsOnClone_false; unfold closure; fields.
    unfold padding in *; intros L; rewrite L in *; lia. }
  unfold goToAndSettle, goTo; fold (internal s i); rewrite I.
  change (andThen _ _) with (settle (S (S fuel)) (i + padding s) true s).
  destruct (settle_reports fuel (i + padding s) true s R A1)
    as (s' & D & A & T & X & E & _ & _).
  rewrite S1 in A, X, E.
  exists s'; do 4 (split; [assumption|]).
  split.
  - rewrite E; f_equal.
    replace (toPublic (loop (props s)) (getClonesCount (props s))
               (i + padding s)) with i; [reflexivity|].
    unfold toPublic, padding; destruct (loop (props s)); lia.
  - rewrite A, (rendered_slot s (i + padding s) R Hp) by lia.
    unfold slotChild.
    replace (i + padding s <? padding s) with false
      by (symmetry; apply Z.ltb_ge; lia).
    replace (i + padding s <? padding s + realCount s) with true
      by (symmetry; apply Z.ltb_lt; lia).
    replace (i + padding s - padding s) with i by lia.
    destruct (item_defined (toArray (children (props s))) i Hi) as [-> N].
    destruct (nth_error _ _); [reflexivity|now elim N].
Qed.

(** X9: without looping [goTo] takes the index one past the last child: the move
    completes, the active index becomes [frames.length], that index is
    reported, and no frame sits at it. *)
Theorem goTo_one_past_the_end (fuel : nat) (s : Frames) :
  rendered s -> loop (props s) = false -> framesCount s <> 0 ->
  exists s',
    goToAndSettle (S (S fuel)) (framesCount s) s = Some s' /\
    activeIndex s' = framesCount s /\
    transform s' = Some (offset s (framesCount s)) /\
    frameUpdates (effects s') =
      frameUpdates (effects s)
      ++ (if onFrameUpdate (props s) then [framesCount s] else []) /\
    nth_error (frames s') (Z.to_nat (activeIndex s')) = None /\
    getNextIndex true s' = framesCount s - 1.
Proof.
  intros R L Hne.
  assert (Hpos : 0 <= framesCount s) by (unfold framesCount; lia).
  assert (A1 : accepts s (framesCount s)) by (split; lia).
  assert (S1 : settlesOn s (framesCount s) = framesCount s).
  { unfold settlesOn, landsOnClone, closure; fields; now rewrite L. }
  unfold goToAndSettle, goTo, toInternal; rewrite L.
  change (andThen _ _) with (settle (S (S fuel)) (framesCount s) true s).
  destruct (settle_reports fuel (framesCount s) true s R A1)
    as (s' & D & A & T & X & E & St & _).
  rewrite S1 in A, X, E.
  pose proof (stable_framesCount _ _ St) as F.
  exists s'; split; [exact D|]; split; [exact A|]; split; [exact X|].
  split; [|split].
  - rewrite E; unfold toPublic; now rewrite L.
  - apply nth_error_None; rewrite A.
    destruct St as (_ & Fr & _); rewrite Fr; unfold framesCount; lia.
  - unfold getNextIndex; rewrite A, F; lia.
Qed.

(** X10: in loop mode with no clone at all nothing wraps: [next()] from the last
    frame and [prev()] from the first, run to completion, settle on the
    frame they started from. *)
Theorem loop_without_clones_does_not_wrap (fuel : nat) (s : Frames) :
  rendered s -> loop (props s) = true -> getClonesCount (props s) = 0 ->
  framesCount s <> 0 ->
  (activeIndex s = framesCount s - 1 ->
   exists s', stepAndSettle (S (S fuel)) true s = Some s' /\
              activeIndex s' = framesCount s - 1) /\
  (activeIndex s = 0 ->
   exists s', stepAndSettle (S (S fuel)) false s = Some s' /\
              activeIndex s' = 0).
Proof.
  intros R L Hc Hne.
  assert (Hpos : 0 <= framesCount s) by (unfold framesCount; lia).
  assert (Stay : forall index, 0 <= index <= framesCount s - 1 ->
            exists s', settle (S (S fuel)) index true s = Some s' /\
                       activeIndex s' = index).
  { intros index Hi.
    destruct (settle_reports fuel index true s R) as (s' & D & A & _);
      [split; lia|].
    exists s'; split; [exact D|]; rewrite A; unfold settlesOn.
    replace (landsOnClone (closure s index) s) with false; [reflexivity|].
    symmetry; apply landsOnClone_false; unfold closure; fields; lia. }
  split; intros Ha.
  - unfold stepAndSettle, next, getNextIndex; rewrite Ha.
    replace (Z.min (framesCount s - 1 + 1) (framesCount s - 1))
      with (framesCount s - 1) by lia.
    apply Stay; lia.
  - unfold stepAndSettle, prev, getNextIndex; rewrite Ha.
    replace (Z.max (0 - 1) 0) with 0 by lia.
    apply Stay; lia.
Qed.

(** ** Gestures never settle anything themselves *)

Lemma goToFrame_animated_quiet fuel index s :
  exists s',
    goToFrame (S fuel) index true s = Some s' /\
    activeIndex s' = activeIndex s /\
    frameUpdates (effects s') = frameUpdates (effects s).
Proof.
  cbn [goToFrame]; destruct (_ || _); [now exists s|].
  unfold moveContainerBy; eexists; split; [reflexivity|]; fields.
  split; [reflexivity|].
  rewrite frameUpdates_app; cbn [frameUpdates]; now rewrite app_nil_r.
Qed.

Lemma prevOrNext_quiet fuel d s :
  exists s',
    prevOrNext (S fuel) d s = Some s' /\
    activeIndex s' = activeIndex s /\
    frameUpdates (effects s') = frameUpdates (effects s).
Proof.
  unfold prevOrNext, prev, next; destruct (gtJS d 0);
    apply goToFrame_animated_quiet.
Qed.

(** X11: whatever the gesture event and the state, the handler returns, and by
    itself it neither changes the active index nor calls [onFrameUpdate],
    and it keeps props, frames and frame size: an index only changes when a
    timer expires. *)
Theorem gesture_keeps_active_index (fuel : nat) (e : HammerInput) (s : Frames) :
  exists s',
    onEvents (S fuel) e s = Some s' /\
    activeIndex s' = activeIndex s /\
    frameUpdates (effects s') = frameUpdates (effects s) /\
    props s' = props s /\ frames s' = frames s /\ frameSize s' = frameSize s.
Proof.
  assert (K : exists s',
    onEvents (S fuel) e s = Some s' /\
    activeIndex s' = activeIndex s /\
    frameUpdates (effects s') = frameUpdates (effects s)).
  { unfold onEvents.
    assert (Commit : forall d, exists s',
      andThen (prevOrNext (S fuel) d s) hammerStop = Some s' /\
      activeIndex s' = activeIndex s /\
      frameUpdates (effects s') = frameUpdates (effects s)).
    { intros d; destruct (prevOrNext_quiet fuel d s) as (s1 & -> & A & E).
      cbn [andThen hammerStop]; eexists; split; [reflexivity|]; fields.
      split; [exact A|].
      rewrite frameUpdates_app, E; cbn [frameUpdates]; now rewrite app_nil_r. }
    destruct (String.eqb (srcEventType e) _); [now exists s|].
    destruct (_ || _).
    { destruct (gtJS _ _); [apply Commit|].
      unfold moveContainerBy, callDone.
      eexists; split; [reflexivity|]; fields; split; [reflexivity|].
      rewrite frameUpdates_app; cbn [frameUpdates]; now rewrite app_nil_r. }
    destruct (_ || _); [apply Commit|].
    destruct (_ || _); [|now exists s].
    destruct (gtJS _ _);
      [apply prevOrNext_quiet|apply goToFrame_animated_quiet]. }
  destruct K as (s' & D & A & E).
  exists s'; split; [exact D|split; [exact A|split; [exact E|]]].
  destruct (onEvents_stable _ _ _ _ D) as (P & F & Z & _); auto.
Qed.

(** X12: a swipe that is not ignored as a [pointercancel] calls [prev] when its
    delta is positive and [next] otherwise, whatever the size of the delta,
    and then stops Hammer; the container is not dragged. *)
Theorem swipe_commits_one_step (fuel : nat) (e : HammerInput) (s : Frames) :
  constructed s -> delivered e -> isSwipe e s ->
  let d := deltaOf e s in
  exists s1,
    (gtJS d 0 = true -> prev (S fuel) s = Some s1) /\
    (gtJS d 0 = false -> next (S fuel) s = Some s1) /\
    onEvents (S fuel) e s = Some (emit HammerStop s1).
Proof.
  intros (p & Hsp & Hsn & Hpp & Hpn) D Sw d.
  assert (E : onEvents (S fuel) e s
              = andThen (prevOrNext (S fuel) d s) hammerStop).
  { unfold onEvents; rewrite (delivered_guard e D); fold (deltaOf e s); fold d.
    replace (String.eqb (type e) (PAN_PREV s)
             || String.eqb (type e) (PAN_NEXT s)) with false.
    - replace (String.eqb (type e) (SWIPE_PREV s)
               || String.eqb (type e) (SWIPE_NEXT s)) with true; [reflexivity|].
      destruct Sw as [->| ->]; rewrite String.eqb_refl;
        [reflexivity|now rewrite orb_true_r].
    - rewrite Hpp, Hpn.
      destruct Sw as [->| ->]; rewrite ?Hsp, ?Hsn;
        cbn [constructor PAN_PREV PAN_NEXT SWIPE_PREV SWIPE_NEXT];
        destruct (isVertical p); reflexivity. }
  destruct (prevOrNext_returns fuel d s) as (s1 & Rn & _).
  exists s1; rewrite E, Rn; unfold prevOrNext in Rn.
  repeat split.
  - intros Hd; now rewrite Hd in Rn.
  - intros Hd; now rewrite Hd in Rn.
Qed.

(** ** The scrolling variant *)

Lemma scroll_child_defined (s : ScrollWip.Frames) i :
  Z.of_nat (length (ScrollWip.childrenRefs s)) = ScrollWip.total s ->
  0 <= i < ScrollWip.total s ->
  exists node, ScrollWip.child s (Some i) = Some node.
Proof.
  intros Hl Hi; unfold ScrollWip.child.
  replace (i <? 0) with false by (symmetry; apply Z.ltb_ge; lia).
  destruct (nth_error (ScrollWip.childrenRefs s) (Z.to_nat i)) eqn:E; [eauto|].
  apply nth_error_None in E; lia.
Qed.

Lemma scroll_getNextIndex_mod (s : ScrollWip.Frames) fwd :
  0 <= ScrollWip.activeIndex s < ScrollWip.total s ->
  ScrollWip.getNextIndex fwd s
  = Some ((ScrollWip.activeIndex s + (if fwd then 1 else -1))
          mod ScrollWip.total s).
Proof.
  intros Ha; unfold ScrollWip.getNextIndex.
  replace (ScrollWip.total s =? 0) with false by (symmetry; apply Z.eqb_neq; lia).
  f_equal; rewrite Z.rem_mod_nonneg by (destruct fwd; lia).
  destruct fwd; [reflexivity|].
  replace (ScrollWip.activeIndex s + ScrollWip.total s - 1)
    with (ScrollWip.activeIndex s + -1 + 1 * ScrollWip.total s) by lia.
  now rewrite Z.mod_add by lia.
Qed.

Lemma scroll_step (s : ScrollWip.Frames) fwd :
  ScrollWip.atRest s ->
  ScrollWip.atRest (ScrollWip.stepAndSettle fwd s) /\
  ScrollWip.total (ScrollWip.stepAndSettle fwd s) = ScrollWip.total s /\
  ScrollWip.activeIndex (ScrollWip.stepAndSettle fwd s)
  = (ScrollWip.activeIndex s + (if fwd then 1 else -1)) mod ScrollWip.total s.
Proof.
  intros (Hl & Ha & Hb & Hs).
  assert (Hm : 0 <= (ScrollWip.activeIndex s + (if fwd then 1 else -1))
                    mod ScrollWip.total s < ScrollWip.total s)
    by (apply Z.mod_pos_bound; lia).
  destruct (scroll_child_defined s _ Hl Hm) as [node Hc].
  assert (E : ScrollWip.stepAndSettle fwd s =
    {| ScrollWip.total := ScrollWip.total s;
       ScrollWip.childrenRefs := ScrollWip.childrenRefs s;
       ScrollWip.activeIndex :=
         (ScrollWip.activeIndex s + (if fwd then 1 else -1)) mod ScrollWip.total s;
       ScrollWip.activeFrame := Some node;
       ScrollWip.isBusy := false;
       ScrollWip.scrolling := [];
       ScrollWip.scrolledTo :=
         ScrollWip.scrolledTo s
         ++ [(ScrollWip.activeIndex s + (if fwd then 1 else -1))
             mod ScrollWip.total s] |}).
  { unfold ScrollWip.stepAndSettle.
    replace (if fwd then ScrollWip.next s else ScrollWip.prev s)
      with (ScrollWip.scrollTo (ScrollWip.getNextIndex fwd s) s)
      by (destruct fwd; reflexivity).
    rewrite (scroll_getNextIndex_mod s fwd Ha).
    unfold ScrollWip.scrollTo; rewrite Hc.
    unfold ScrollWip.scrolled; cbn [ScrollWip.scrolling]; rewrite Hs.
    reflexivity. }
  rewrite E; unfold ScrollWip.atRest;
    cbn [ScrollWip.total ScrollWip.childrenRefs ScrollWip.activeIndex
         ScrollWip.isBusy ScrollWip.scrolling].
  repeat split; try assumption; lia.
Qed.

(** X13: in the scrolling variant [next()] and [prev()] wrap arithmetically: run
    to completion from rest they move the active index to the successor and
    the predecessor modulo the number of children, stay at rest, and undo
    each other in both orders. *)
Theorem scroll_next_prev_wrap (s : ScrollWip.Frames) :
  ScrollWip.atRest s ->
  let a := ScrollWip.activeIndex s in
  let n := ScrollWip.total s in
  ScrollWip.activeIndex (ScrollWip.stepAndSettle true s) = (a + 1) mod n /\
  ScrollWip.activeIndex (ScrollWip.stepAndSettle false s) = (a - 1) mod n /\
  ScrollWip.atRest (ScrollWip.stepAndSettle true s) /\
  ScrollWip.atRest (ScrollWip.stepAndSettle false s) /\
  ScrollWip.activeIndex
    (ScrollWip.stepAndSettle false (ScrollWip.stepAndSettle true s)) = a /\
  ScrollWip.activeIndex
    (ScrollWip.stepAndSettle true (ScrollWip.stepAndSettle false s)) = a.
Proof.
  intros H a n; pose proof H as (_ & Ha & _).
  destruct (scroll_step s true H) as (R1 & T1 & A1).
  destruct (scroll_step s false H) as (R2 & T2 & A2).
  destruct (scroll_step _ false R1) as (_ & _ & A3).
  destruct (scroll_step _ true R2) as (_ & _ & A4).
  fold a n in A1, A2, Ha.
  split; [exact A1|]; split; [exact A2|]; split; [exact R1|]; split; [exact R2|].
  split.
  - rewrite A3, T1, A1; fold n.
    rewrite Zplus_mod_idemp_l.
    replace (a + 1 + -1) with a by lia; apply Z.mod_small; lia.
  - rewrite A4, T2, A2; fold n.
    rewrite Zplus_mod_idemp_l.
    replace (a + -1 + 1) with a by lia; apply Z.mod_small; lia.
Qed.

Lemma scroll_iter (s : ScrollWip.Frames) (k : nat) :
  ScrollWip.atRest s ->
  ScrollWip.atRest (ScrollWip.nextTimes k s) /\
  ScrollWip.total (ScrollWip.nextTimes k s) = ScrollWip.total s /\
  ScrollWip.activeIndex (ScrollWip.nextTimes k s)
  = (ScrollWip.activeIndex s + Z.of_nat k) mod ScrollWip.total s.
Proof.
  intros H; pose proof H as (_ & Ha & _).
  induction k as [|k (R & T & A)]; cbn [ScrollWip.nextTimes].
  - split; [exact H|split; [reflexivity|]].
    change (Z.of_nat 0) with 0; now rewrite Z.add_0_r, Z.mod_small.
  - destruct (scroll_step _ true R) as (R' & T' & A').
    split; [exact R'|]; split; [congruence|].
    rewrite A', T, A, Zplus_mod_idemp_l.
    f_equal; lia.
Qed.

(** X14: in the scrolling variant as many completed [next()] calls as there are
    children bring the active index back to where it started. *)
Theorem scroll_full_cycle (s : ScrollWip.Frames) :
  ScrollWip.atRest s ->
  ScrollWip.activeIndex
    (ScrollWip.nextTimes (Z.to_nat (ScrollWip.total s)) s)
  = ScrollWip.activeIndex s.
Proof.
  intros H; pose proof H as (_ & Ha & _).
  destruct (scroll_iter s (Z.to_nat (ScrollWip.total s)) H) as (_ & _ & A).
  rewrite A, Z2Nat.id by lia.
  replace (ScrollWip.activeIndex s + ScrollWip.total s)
    with (ScrollWip.activeIndex s + 1 * ScrollWip.total s) by lia.
  rewrite Z.mod_add by lia; apply Z.mod_small; lia.
Qed.

Lemma scroll_indexOf_nth l :
  NoDup l -> forall k element from,
  nth_error l k = Some element ->
  ScrollWip.indexOf l element from = from + Z.of_nat k.
Proof.
  induction 1 as [|x l Hx Hl IH]; intros k element from E.
  - destruct k; discriminate.
  - cbn [ScrollWip.indexOf]; destruct k as [|k]; cbn [nth_error] in E.
    + injection E as ->; rewrite Nat.eqb_refl; lia.
    + destruct (Nat.eqb_spec x element) as [->|_].
      * elim Hx; eapply nth_error_In; eassumption.
      * rewrite (IH k element (from + 1) E); lia.
Qed.

Lemma scroll_indexOf_absent l :
  forall element from, ~ In element l -> ScrollWip.indexOf l element from = -1.
Proof.
  induction l as [|x l IH]; intros element from N; cbn [ScrollWip.indexOf];
    [reflexivity|].
  destruct (Nat.eqb_spec x element) as [->|_]; [elim N; now left|].
  apply IH; intros K; apply N; now right.
Qed.

(** X15: in the scrolling variant a visible intersection report, when no scroll is
    in flight, makes the active index the position of the reported node
    among the distinct child nodes, and -1 when the node is not a child; a
    report that is not visible or arrives during a scroll changes nothing. *)
Theorem scroll_intersection_adjusts (s : ScrollWip.Frames) (element : nat) :
  NoDup (ScrollWip.childrenRefs s) -> ScrollWip.isBusy s = false ->
  (forall k, nth_error (ScrollWip.childrenRefs s) k = Some element ->
   ScrollWip.activeIndex (ScrollWip.onIntersect true element s) = Z.of_nat k) /\
  (~ In element (ScrollWip.childrenRefs s) ->
   ScrollWip.activeIndex (ScrollWip.onIntersect true element s) = -1) /\
  ScrollWip.onIntersect false element s = s /\
  (forall busy,
     ScrollWip.isBusy busy = true ->
     forall visible, ScrollWip.onIntersect visible element busy = busy).
Proof.
  intros N B; repeat split.
  - intros k E; unfold ScrollWip.onIntersect; rewrite B; cbn [negb orb].
    rewrite (scroll_indexOf_nth _ N k element 0 E), Z.add_0_l.
    destruct (Z.eqb_spec (Z.of_nat k) (ScrollWip.activeIndex s)) as [Q|_];
      [now rewrite Q|reflexivity].
  - intros A; unfold ScrollWip.onIntersect; rewrite B; cbn [negb orb].
    rewrite (scroll_indexOf_absent _ element 0 A).
    destruct (Z.eqb_spec (-1) (ScrollWip.activeIndex s)) as [Q|_];
      [now rewrite Q|reflexivity].
  - intros busy Hb visible; unfold ScrollWip.onIntersect; rewrite Hb.
    now rewrite orb_true_r.
Qed.

(** X16: in the scrolling variant [scrollTo] does nothing for an index that has no
    child node: a negative index, one past the nodes, or the [NaN] that
    [getNextIndex] yields when there are no children, so that [next()] and
    [prev()] then leave the component as it is.  While a scroll started from
    rest is in flight, intersection reports are ignored, so its completion
    sets the active index to the target all the same. *)
Theorem scroll_rejects_and_shields (s : ScrollWip.Frames) :
  (forall i, i < 0 \/ Z.of_nat (length (ScrollWip.childrenRefs s)) <= i ->
             ScrollWip.scrollTo (Some i) s = s) /\
  (ScrollWip.total s = 0 -> ScrollWip.next s = s /\ ScrollWip.prev s = s) /\
  (ScrollWip.atRest s ->
   forall (fwd visible : bool) (element : nat),
     ScrollWip.scrolled
       (ScrollWip.onIntersect visible element
          (if fwd then ScrollWip.next s else ScrollWip.prev s))
     = ScrollWip.stepAndSettle fwd s).
Proof.
  split; [|split].
  - intros i Hi; unfold ScrollWip.scrollTo, ScrollWip.child.
    destruct (Z.ltb_spec i 0); [reflexivity|].
    replace (nth_error (ScrollWip.childrenRefs s) (Z.to_nat i)) with (@None nat);
      [reflexivity|].
    symmetry; apply nth_error_None; lia.
  - intros T; unfold ScrollWip.next, ScrollWip.prev, ScrollWip.getNextIndex.
    rewrite T; split; reflexivity.
  - intros (Hl & Ha & Hb & Hs) fwd visible element.
    unfold ScrollWip.stepAndSettle; f_equal.
    replace (if fwd then ScrollWip.next s else ScrollWip.prev s)
      with (ScrollWip.scrollTo (ScrollWip.getNextIndex fwd s) s)
      by (destruct fwd; reflexivity).
    rewrite (scroll_getNextIndex_mod s fwd Ha).
    assert (Hm : 0 <= (ScrollWip.activeIndex s + (if fwd then 1 else -1))
                      mod ScrollWip.total s < ScrollWip.total s)
      by (apply Z.mod_pos_bound; lia).
    destruct (scroll_child_defined s _ Hl Hm) as [node Hc].
    unfold ScrollWip.scrollTo; rewrite Hc.
    unfold ScrollWip.onIntersect; cbn [ScrollWip.isBusy].
    now rewrite orb_true_r.
Qed.

(** ** The transition class *)

(** X18: the transition class does not outlive the first timer: when a second
    accepted animated move starts while the timer of a first is pending, the
    expiry of the first timer removes the class although the second move is
    still pending. *)
Theorem transition_class_dropped_early (fuel : nat) (s : Frames) (i1 i2 : Z) :
  rendered s -> timers s = [] -> accepts s i1 -> accepts s i2 ->
  exists s2 s',
    andThen (goToFrame (S (S fuel)) i1 true s)
      (goToFrame (S (S fuel)) i2 true) = Some s2 /\
    moving s2 = true /\
    twoMovesOneExpiry (S (S fuel)) i1 i2 s = Some s' /\
    moving s' = false /\
    timers s' = [Some (closure s i2)].
Proof.
  intros R Ht A1 A2; unfold twoMovesOneExpiry.
  pose proof (goToFrame_animated (S fuel) i1 s A1) as E1.
  set (s1 := set_timers _ _) in E1.
  pose proof (goToFrame_animated (S fuel) i2 s1 A2) as E2.
  set (s2 := set_timers _ _) in E2.
  rewrite E1; cbn [andThen]; rewrite E2; cbn [andThen].
  assert (Tm : timers s2 = [Some (closure s i1); Some (closure s i2)])
    by (subst s2 s1; fields; rewrite Ht; reflexivity).
  unfold timeout; rewrite Tm; cbn [nth_error firstn skipn app callDone].
  set (x := set_moving false _).
  destruct (done_settles (S fuel) (closure s i1) x) as (s' & D & _ & T & M & _);
    try reflexivity; try assumption.
  exists s2, s'; split; [reflexivity|]; split; [reflexivity|].
  split; [exact D|]; split; [exact M|exact T].
Qed.

Lemma transition_class_dropped_early_witness :
  rendered mountedThreeFrames /\ timers mountedThreeFrames = [] /\
  exists s',
    twoMovesOneExpiry 2 1 2 mountedThreeFrames = Some s' /\
    moving s' = false /\ length (timers s') = 1%nat.
Proof.
  assert (R : rendered mountedThreeFrames) by reflexivity.
  split; [exact R|split; [reflexivity|]].
  destruct (transition_class_dropped_early 0 mountedThreeFrames 1 2 R)
    as (_ & s' & _ & _ & D & M & T).
  - reflexivity.
  - split; [discriminate|split; discriminate].
  - split; [discriminate|split; discriminate].
  - exists s'; split; [exact D|split; [exact M|]].
    rewrite T; reflexivity.
Defined.

(** ** Instances *)

Lemma mountedThreeFramesLoop_consistent : consistent mountedThreeFramesLoop.
Proof.
  split; [reflexivity|].
  split; [split; [split; [discriminate|split; discriminate]
                 |intros _; split; discriminate]|].
  split; [constructor|].
  constructor; [|constructor].
  exists 2; split; [|reflexivity].
  split; [split; [discriminate|split; discriminate]
         |intros _; split; discriminate].
Qed.

Lemma mountedOnLastOfLoop_consistent : consistent mountedOnLastOfLoop.
Proof.
  split; [reflexivity|].
  split; [split; [split; [discriminate|split; discriminate]
                 |intros _; split; discriminate]|].
  split; [constructor|].
  constructor; [|constructor].
  exists 4; split; [|reflexivity].
  split; [split; [discriminate|split; discriminate]
         |intros _; split; discriminate].
Qed.

Lemma next_cycles_witness :
  rendered mountedOnLastOfLoop /\
  exists s',
    stepAndSettle 2 true mountedOnLastOfLoop = Some s' /\
    activeIndex s' = 2 /\
    frameUpdates (effects s') = [2; 0].
Proof.
  assert (R : rendered mountedOnLastOfLoop) by reflexivity.
  split; [exact R|].
  destruct (next_cycles 0 mountedOnLastOfLoop R)
    as (s' & D & A & _ & _ & E & _).
  - reflexivity.
  - discriminate.
  - apply mountedOnLastOfLoop_consistent.
  - exists s'; split; [exact D|split; [exact A|exact E]].
Defined.

Lemma prev_cycles_witness :
  rendered mountedThreeFramesLoop /\
  exists s',
    stepAndSettle 2 false mountedThreeFramesLoop = Some s' /\
    activeIndex s' = 4 /\
    frameUpdates (effects s') = [0; 2].
Proof.
  assert (R : rendered mountedThreeFramesLoop) by reflexivity.
  split; [exact R|].
  destruct (prev_cycles 0 mountedThreeFramesLoop R)
    as (s' & D & A & _ & _ & E & _).
  - reflexivity.
  - discriminate.
  - apply mountedThreeFramesLoop_consistent.
  - exists s'; split; [exact D|split; [exact A|exact E]].
Defined.

Lemma goTo_settles_on_child_witness :
  rendered mountedThreeFramesLoop /\
  exists s',
    goToAndSettle 2 1 mountedThreeFramesLoop = Some s' /\
    activeIndex s' = 3 /\
    nth_error (frames mountedThreeFramesLoop) (Z.to_nat (activeIndex s'))
    = Some (Some "B"%string).
Proof.
  assert (R : rendered mountedThreeFramesLoop) by reflexivity.
  split; [exact R|].
  destruct (goTo_settles_on_child 0 mountedThreeFramesLoop 1 R)
    as (s' & D & A & _ & _ & _ & F).
  - discriminate.
  - split; [discriminate|reflexivity].
  - exists s'; split; [exact D|split; [exact A|exact F]].
Defined.

Lemma goTo_one_past_the_end_witness :
  rendered mountedThreeFrames /\
  exists s',
    goToAndSettle 2 3 mountedThreeFrames = Some s' /\
    activeIndex s' = 3 /\
    nth_error (frames s') (Z.to_nat (activeIndex s')) = None.
Proof.
  assert (R : rendered mountedThreeFrames) by reflexivity.
  split; [exact R|].
  destruct (goTo_one_past_the_end 0 mountedThreeFrames R)
    as (s' & D & A & _ & _ & F & _).
  - reflexivity.
  - discriminate.
  - exists s'; split; [exact D|split; [exact A|exact F]].
Defined.

Lemma loop_without_clones_does_not_wrap_witness :
  rendered mountedLoopWithoutClones /\
  loop (props mountedLoopWithoutClones) = true /\
  exists s',
    stepAndSettle 2 true mountedLoopWithoutClones = Some s' /\
    activeIndex s' = 2.
Proof.
  assert (R : rendered mountedLoopWithoutClones) by reflexivity.
  split; [exact R|split; [reflexivity|]].
  destruct (loop_without_clones_does_not_wrap 0 mountedLoopWithoutClones R)
    as (N & _).
  - reflexivity.
  - reflexivity.
  - discriminate.
  - apply N; reflexivity.
Defined.

Lemma event_loop_keeps_consistent_witness :
  consistent mountedThreeFramesLoop /\
  exists s',
    run 2 [CallNext; Gesture panRight50; CallGoTo 7; Timeout 1; Init 320;
           Timeout 0; CallPrev] mountedThreeFramesLoop = Some s' /\
    2 <= activeIndex s' <= 4.
Proof.
  pose proof mountedThreeFramesLoop_consistent as C.
  split; [exact C|].
  destruct (event_loop_keeps_consistent 0
              [CallNext; Gesture panRight50; CallGoTo 7; Timeout 1; Init 320;
               Timeout 0; CallPrev] mountedThreeFramesLoop C)
    as (s' & D & _ & _ & _ & _ & L).
  exists s'; split; [exact D|apply L; reflexivity].
Defined.

Lemma reported_indices_in_range_witness :
  consistent mountedThreeFramesLoop /\
  exists s',
    run 2 [CallGoTo 4; Timeout 0; CallGoTo (-2); Timeout 0]
      mountedThreeFramesLoop = Some s' /\
    Forall (fun i => 0 <= i <= 2) (frameUpdates (effects s')).
Proof.
  pose proof mountedThreeFramesLoop_consistent as C.
  split; [exact C|].
  destruct (reported_indices_in_range 0
              [CallGoTo 4; Timeout 0; CallGoTo (-2); Timeout 0]
              mountedThreeFramesLoop C) as (s' & D & F);
    [discriminate|].
  exists s'; split; [exact D|exact F].
Defined.

Lemma mount_settles_witness :
  toArray (children loopFromSecond) <> [] /\
  exists s,
    mounted 2 loopFromSecond 300 = Some s /\
    activeIndex s = 2 /\ frameUpdates (effects s) = [0].
Proof.
  assert (K : toArray (children loopFromSecond) <> []) by discriminate.
  split; [exact K|].
  destruct (mount_settles 0 loopFromSecond 300 K)
    as (s & D & _ & _ & A & _ & _ & _ & E).
  - discriminate.
  - split; discriminate.
  - exists s; split; [exact D|split; [exact A|]].
    rewrite E, A; reflexivity.
Defined.

Lemma recalculate_keeps_active_frame_witness :
  consistent mountedOnLastOfLoop /\
  exists s',
    recalculate 2 480 mountedOnLastOfLoop = Some s' /\
    activeIndex s' = 4 /\ frameSize s' = 480%float /\
    frameUpdates (effects s') = [2; 2].
Proof.
  pose proof mountedOnLastOfLoop_consistent as C.
  split; [exact C|].
  destruct (recalculate_keeps_active_frame 0 480 mountedOnLastOfLoop C)
    as (s' & D & _ & A & Z & _ & _ & E).
  exists s'; split; [exact D|split; [exact A|split; [exact Z|exact E]]].
Defined.

Lemma swipe_commits_one_step_witness :
  constructed mountedThreeFrames /\ delivered swipeLeft40 /\
  isSwipe swipeLeft40 mountedThreeFrames /\
  exists s1,
    next 1 mountedThreeFrames = Some s1 /\
    onEvents 1 swipeLeft40 mountedThreeFrames = Some (emit HammerStop s1).
Proof.
  assert (C : constructed mountedThreeFrames)
    by (exists (threeFrames 0); repeat split).
  assert (D : delivered swipeLeft40) by discriminate.
  assert (S : isSwipe swipeLeft40 mountedThreeFrames) by (left; reflexivity).
  split; [exact C|split; [exact D|split; [exact S|]]].
  destruct (swipe_commits_one_step 0 swipeLeft40 mountedThreeFrames C D S)
    as (s1 & _ & N & E).
  exists s1; split; [apply N; reflexivity|exact E].
Defined.

Lemma scrollerOnLast_atRest : ScrollWip.atRest scrollerOnLast.
Proof.
  split; [reflexivity|split; [split; [discriminate|reflexivity]|]].
  split; reflexivity.
Qed.

Lemma scroll_next_prev_wrap_witness :
  ScrollWip.atRest scrollerOnLast /\
  ScrollWip.activeIndex (ScrollWip.stepAndSettle true scrollerOnLast) = 0.
Proof.
  pose proof scrollerOnLast_atRest as H.
  split; [exact H|].
  destruct (scroll_next_prev_wrap scrollerOnLast H) as (A & _).
  exact A.
Defined.

Lemma scroll_full_cycle_witness :
  ScrollWip.atRest scrollerOnLast /\
  ScrollWip.activeIndex (ScrollWip.nextTimes 3 scrollerOnLast) = 2.
Proof.
  pose proof scrollerOnLast_atRest as H.
  split; [exact H|].
  exact (scroll_full_cycle scrollerOnLast H).
Defined.

Lemma scroll_intersection_adjusts_witness :
  ScrollWip.isBusy scrollerOnLast = false /\
  ScrollWip.activeIndex (ScrollWip.onIntersect true 11%nat scrollerOnLast) = 1 /\
  ScrollWip.activeIndex (ScrollWip.onIntersect true 99%nat scrollerOnLast) = -1.
Proof.
  assert (N : NoDup (ScrollWip.childrenRefs scrollerOnLast)).
  { repeat constructor; simpl; intuition discriminate. }
  split; [reflexivity|].
  destruct (scroll_intersection_adjusts scrollerOnLast 11%nat N eq_refl)
    as (K & _).
  destruct (scroll_intersection_adjusts scrollerOnLast 99%nat N eq_refl)
    as (_ & A & _).
  split; [exact (K 1%nat eq_refl)|].
  apply A; simpl; intuition discriminate.
Defined.

Lemma scroll_rejects_and_shields_witness :
  ScrollWip.atRest scrollerOnLast /\
  ScrollWip.scrollTo (Some 3) scrollerOnLast = scrollerOnLast /\
  ScrollWip.scrolled
    (ScrollWip.onIntersect true 11%nat (ScrollWip.prev scrollerOnLast))
  = ScrollWip.stepAndSettle false scrollerOnLast.
Proof.
  pose proof scrollerOnLast_atRest as H.
  split; [exact H|].
  destruct (scroll_rejects_and_shields scrollerOnLast) as (J & _ & S).
  split; [apply J; right; discriminate|].
  exact (S H false true 11%nat).
Defined.
